(** * beansoup: chronological reconciliation of CSV statement rows

    A shallow embedding of [beansoup/importers/csv.py]: the function
    [sort_rows], which reorders the rows of a statement so that their running
    balances agree, and the method [Importer.extract], which turns the ordered
    rows into transactions and balance directives.

    Modelling conventions.
    - A [decimal.Decimal] is a finite number; it is embedded as a rational
      [Q].  Python's [==] on decimals compares values, not representations
      ([Decimal('1.0') == Decimal('1.00')]), which is [Qeq] / [Qeq_bool];
      [+] and [-] are exact (the 28 digit context precision is not reached,
      there is no NaN and no infinity).
    - A [datetime.date] is a record of year, month and day, compared
      lexicographically as Python does.  The calendar is not cut at
      [datetime.MAXYEAR].
    - A Python list is a [list] in the same orientation: [append] and
      [extend] add at the end, [pop()] removes the last element. *)

From Stdlib Require Import List ZArith QArith Bool Arith Lia String.
From Stdlib Require Import Permutation Sorted Ascii DecimalString.
Import ListNotations.

Local Open Scope Q_scope.

(** ** Dates *)

Module datetime.

Record date := mkdate { year : Z; month : Z; day : Z }.

(** [date.__eq__] *)
Definition eqb (a b : date) : bool :=
  (year a =? year b)%Z && (month a =? month b)%Z && (day a =? day b)%Z.

(** [date.__lt__]: lexicographic on (year, month, day). *)
Definition ltb (a b : date) : bool :=
  (year a <? year b)%Z
  || ((year a =? year b)%Z
      && ((month a <? month b)%Z
          || ((month a =? month b)%Z && (day a <? day b)%Z))).

(** [date.__le__] *)
Definition leb (a b : date) : bool := ltb a b || eqb a b.

Definition is_leap (y : Z) : bool :=
  ((y mod 4 =? 0)%Z && negb (y mod 100 =? 0)%Z) || (y mod 400 =? 0)%Z.

Definition days_in_month (y m : Z) : Z :=
  if (m =? 2)%Z then (if is_leap y then 29 else 28)%Z
  else if ((m =? 4) || (m =? 6) || (m =? 9) || (m =? 11))%Z then 30%Z
  else 31%Z.

(** [d + datetime.timedelta(days=1)]: the next calendar day. *)
Definition add_one_day (d : date) : date :=
  if (day d <? days_in_month (year d) (month d))%Z
  then mkdate (year d) (month d) (day d + 1)
  else if (month d <? 12)%Z
       then mkdate (year d) (month d + 1) 1
       else mkdate (year d + 1) 1 1.

(** A date of the calendar: a month in [1,12] and a day of that month. *)
Definition valid (d : date) : Prop :=
  (1 <= month d <= 12 /\ 1 <= day d <= days_in_month (year d) (month d))%Z.

(** [_days_before_year(year)]: the days before January 1st of [y]. *)
Definition days_before_year (y : Z) : Z :=
  let y := (y - 1)%Z in
  (y * 365 + y / 4 - y / 100 + y / 400)%Z.

(** [_DAYS_BEFORE_MONTH[month]] *)
Definition DAYS_BEFORE_MONTH (m : Z) : Z :=
  nth (Z.to_nat m)
      [-1; 0; 31; 59; 90; 120; 151; 181; 212; 243; 273; 304; 334]%Z 0%Z.

(** [_days_before_month(year, month)] *)
Definition days_before_month (y m : Z) : Z :=
  (DAYS_BEFORE_MONTH m + (if (2 <? m)%Z && is_leap y then 1 else 0))%Z.

(** [date.toordinal()]: January 1st of year 1 is day 1. *)
Definition toordinal (d : date) : Z :=
  (days_before_year (year d) + days_before_month (year d) (month d) + day d)%Z.

(** [date.weekday()]: Monday is 0 and Sunday is 6. *)
Definition weekday (d : date) : Z := ((toordinal d + 6) mod 7)%Z.

(** [d + datetime.timedelta(days=n)] for [0 <= n]: [n] calendar days on. *)
Definition add_days (d : date) (n : Z) : date :=
  Nat.iter (Z.to_nat n) add_one_day d.

End datetime.

(** ** Rows

    [Row = collections.namedtuple('Row', 'lineno date description amount balance')] *)

Record Row := mkRow {
  lineno : Z;
  date : datetime.date;
  description : string;
  amount : Q;
  balance : Q
}.

(** ** Python list operations used by [sort_rows] *)

(** [l.pop()]: remove and return the last element; [None] stands for the
    empty list, on which the loop condition [while stack] is false. *)
Definition pop {A : Type} (l : list A) : option (A * list A) :=
  match rev l with
  | [] => None
  | x :: r => Some (x, rev r)
  end.

(** [itertools.takewhile(pred, l)] *)
Fixpoint takewhile {A : Type} (pred : A -> bool) (l : list A) : list A :=
  match l with
  | [] => []
  | x :: r => if pred x then x :: takewhile pred r else []
  end.

(** ** The placement loop of [sort_rows] *)

(** The four local variables of one candidate attempt. *)
Record state := mkstate {
  stack : list Row;
  prev_balance : Q;
  unbalanced_rows : list Row;
  balanced_rows : list Row
}.

Inductive control := Continue | Break.

(** [bool(l)] for a list. *)
Definition truthy {A : Type} (l : list A) : bool :=
  match l with [] => false | _ :: _ => true end.

(** [unbalanced_rows and unbalanced_rows[0].date != row.date] *)
Definition other_date_deferred (unbalanced : list Row) (row : Row) : bool :=
  match unbalanced with
  | [] => false
  | u :: _ => negb (datetime.eqb (date u) (date row))
  end.

(** One iteration of [while stack:].  [None] when the stack is empty (the loop
    condition is false); otherwise the state after the body and whether the
    body ended in [break]. *)
Definition loop_body (s : state) : option (control * state) :=
  match pop (stack s) with
  | None => None
  | Some (row, stack') =>
      if Qeq_bool (prev_balance s + amount row) (balance row) then
        (* the current row is in the correct chronological order *)
        let balanced' := balanced_rows s ++ [row] in
        let prev' := balance row in
        if truthy (unbalanced_rows s) then
          Some (Continue,
                mkstate (stack' ++ unbalanced_rows s) prev' [] balanced')
        else
          Some (Continue, mkstate stack' prev' (unbalanced_rows s) balanced')
      else
        (* the current row is out of chronological order *)
        if other_date_deferred (unbalanced_rows s) row then
          Some (Break,
                mkstate stack' (prev_balance s) (unbalanced_rows s)
                        (balanced_rows s))
        else
          Some (Continue,
                mkstate stack' (prev_balance s) (unbalanced_rows s ++ [row])
                        (balanced_rows s))
  end.

(** The [while] loop, with fuel; [None] only when the fuel runs out. *)
Fixpoint while_stack (fuel : nat) (s : state) : option state :=
  match fuel with
  | O => None
  | S fuel' =>
      match loop_body s with
      | None => Some s
      | Some (Break, s') => Some s'
      | Some (Continue, s') => while_stack fuel' s'
      end
  end.

(** The state at the top of the body of [for opening_balance in ...]. *)
Definition initial_state (rows : list Row) (opening_balance : Q) : state :=
  mkstate (rev rows) opening_balance [] [].

(** One candidate attempt: the local state when the [while] loop is left. *)
Definition attempt (fuel : nat) (rows : list Row) (opening_balance : Q)
  : option state :=
  while_stack fuel (initial_state rows opening_balance).

(** ** [sort_rows] *)

(** What a call can do: return, raise, or exhaust the fuel of the model. *)
Inductive result (A : Type) :=
| Return (a : A)
| Raise (exn : string)
| OutOfFuel.
Arguments Return {A} a.
Arguments Raise {A} exn.
Arguments OutOfFuel {A}.

Definition bind {A B : Type} (m : result A) (k : A -> result B) : result B :=
  match m with
  | Return a => k a
  | Raise e => Raise e
  | OutOfFuel => OutOfFuel
  end.

Definition IndexError : string := "IndexError".

(** [first_date = rows[0].date;
    opening_balances = [row.balance - row.amount for row in
       itertools.takewhile(lambda r: r.date == first_date, rows)]] *)
Definition opening_balances (rows : list Row) : list Q :=
  match rows with
  | [] => []
  | r0 :: _ =>
      let first_date := date r0 in
      map (fun row => balance row - amount row)
          (takewhile (fun r => datetime.eqb (date r) first_date) rows)
  end.

(** The [for opening_balance in opening_balances:] loop followed by the final
    [return rows, error_lineno]. *)
Fixpoint try_candidates (fuel : nat) (rows : list Row) (candidates : list Q)
         (error_lineno : Z) : result (list Row * option Z) :=
  match candidates with
  | [] => Return (rows, Some error_lineno)
  | opening_balance :: candidates' =>
      match attempt fuel rows opening_balance with
      | None => OutOfFuel
      | Some s =>
          if (List.length (balanced_rows s) =? List.length rows)%nat then
            Return (balanced_rows s, None)
          else
            match unbalanced_rows s with
            | [] => Raise IndexError
            | u :: _ => try_candidates fuel rows candidates' (lineno u)
            end
      end
  end.

Definition sort_rows_fuel (fuel : nat) (rows : list Row)
  : result (list Row * option Z) :=
  if (List.length rows <=? 1)%nat then Return (rows, None)
  else try_candidates fuel rows (opening_balances rows) 0%Z.

(** Fuel that is enough for every attempt on [rows] (see [while_stack_total]). *)
Definition enough_fuel (rows : list Row) : nat :=
  S (List.length rows * List.length rows + List.length rows).

Definition sort_rows (rows : list Row) : result (list Row * option Z) :=
  sort_rows_fuel (enough_fuel rows) rows.

(** ** Billing periods *)

Module periods.

(** Modelled from the spec: the module [beansoup.utils.periods] is not among
    the sources; [extract] calls its [greatest_start], [next] and [prev].  The
    spec describes it as the period-boundary utility: given a date and an
    anchor day in [1,28] it returns the start of the enclosing monthly period,
    and it steps a boundary to the next or the previous period. *)
Definition next (d : datetime.date) : datetime.date :=
  if (datetime.month d <? 12)%Z
  then datetime.mkdate (datetime.year d) (datetime.month d + 1) (datetime.day d)
  else datetime.mkdate (datetime.year d + 1) 1 (datetime.day d).

(** Modelled from the spec: the step to the previous period (see [next]). *)
Definition prev (d : datetime.date) : datetime.date :=
  if (1 <? datetime.month d)%Z
  then datetime.mkdate (datetime.year d) (datetime.month d - 1) (datetime.day d)
  else datetime.mkdate (datetime.year d - 1) 12 (datetime.day d).

(** Modelled from the spec: the greatest period start that is not after [d]
    (see [next]). *)
Definition greatest_start (d : datetime.date) (first_day : Z) : datetime.date :=
  if (first_day <=? datetime.day d)%Z
  then datetime.mkdate (datetime.year d) (datetime.month d) first_day
  else prev (datetime.mkdate (datetime.year d) (datetime.month d) first_day).

End periods.

(** ** Ledger entries

    The constructors of [beancount.core.amount] and [beancount.core.data]
    that [extract] calls, as data. *)

Module beancount.

Record Amount := mkAmount { number : Q; currency : string }.

Record Posting := mkPosting {
  account : string;
  units : Amount;
  cost : option Amount;
  price : option Amount;
  flag : option string;
  meta : option unit
}.

(** [new_metadata(filename, lineno)] builds
    [{'filename': filename, 'lineno': lineno}]. *)
Record Meta := new_metadata { filename : string; lineno : nat }.

Definition EMPTY_SET : list string := [].

Inductive Directive :=
| Transaction (meta : Meta) (date : datetime.date) (flag : string)
              (payee : option string) (narration : string)
              (tags links : list string) (postings : list Posting)
| Balance (meta : Meta) (date : datetime.date) (account : string)
          (amount : Amount) (tolerance : option Q)
          (diff_amount : option Amount).

End beancount.

(** ** The importer *)

(** The attributes of an [Importer] that [extract] reads; [FLAG] comes from
    the base class [ImporterProtocol]. *)
Record Importer := mkImporter {
  account : string;
  currency : string;
  first_day : option Z;
  FLAG : string
}.

(** [Importer.create_balance_entry] *)
Definition create_balance_entry (self : Importer) (filename : string)
           (on : datetime.date) (value : Q) : beancount.Directive :=
  let meta := beancount.new_metadata filename 0 in
  beancount.Balance meta on (account self)
                    (beancount.mkAmount value (currency self)) None None.

(** The body of [for index, row in enumerate(rows):] up to the [append]. *)
Definition transaction_entry (self : Importer) (filename : string)
           (index : nat) (row : Row) : beancount.Directive :=
  let posting :=
    beancount.mkPosting (account self)
                        (beancount.mkAmount (amount row) (currency self))
                        None None None None in
  let meta := beancount.new_metadata filename index in
  let payee := None in
  let narration := description row in
  beancount.Transaction meta (date row) (FLAG self) payee narration
                        beancount.EMPTY_SET beancount.EMPTY_SET [posting].

(** [for index, row in enumerate(rows): ... new_entries.append(entry)] *)
Fixpoint transaction_loop (self : Importer) (filename : string) (index : nat)
         (rows : list Row) (new_entries : list beancount.Directive)
  : list beancount.Directive :=
  match rows with
  | [] => new_entries
  | row :: rest =>
      transaction_loop self filename (S index) rest
        (new_entries ++ [transaction_entry self filename index row])
  end.

(** [for row in reversed(rows): if row.date < balance_date: ...], run on the
    reversed list. *)
Fixpoint balance_loop (self : Importer) (filename : string)
         (reversed_rows : list Row) (balance_date : datetime.date)
         (new_entries : list beancount.Directive)
  : list beancount.Directive :=
  match reversed_rows with
  | [] => new_entries
  | row :: rest =>
      if datetime.ltb (date row) balance_date then
        balance_loop self filename rest (periods.prev balance_date)
          (new_entries
             ++ [create_balance_entry self filename balance_date (balance row)])
      else
        balance_loop self filename rest balance_date new_entries
  end.

(** [rows[-1]] *)
Definition last_item {A : Type} (l : list A) : result A :=
  match pop l with
  | Some (x, _) => Return x
  | None => Raise IndexError
  end.

(** A call of [logging.warning]: the file name and the line number that are
    formatted into the message. *)
Definition warning : Type := (string * Z)%type.

(** [Importer.extract].  [filename] is [file.name] and [parsed] is what
    [self.parse(file)] returned ([parse] is left to the derived classes).  The
    result holds [new_entries] and the warnings logged on the way. *)
Definition extract (self : Importer) (filename : string) (parsed : list Row)
  : result (list beancount.Directive * list warning) :=
  bind (sort_rows parsed) (fun '(rows, error_lineno) =>
    let new_entries := [] in
    if (List.length rows =? 0)%nat then Return (new_entries, [])
    else
      let new_entries := transaction_loop self filename 0 rows new_entries in
      match error_lineno with
      | Some l => Return (new_entries, [(filename, l)])
      | None =>
          match first_day self with
          | None =>
              bind (last_item rows) (fun last_row =>
                let on := datetime.add_one_day (date last_row) in
                let balance_entry :=
                  create_balance_entry self filename on (balance last_row) in
                Return (new_entries ++ [balance_entry], []))
          | Some first_day =>
              bind (last_item rows) (fun last_row =>
                let balance_date :=
                  periods.next
                    (periods.greatest_start (date last_row) first_day) in
                Return (balance_loop self filename (rev rows) balance_date
                                     new_entries, []))
          end
      end).

(** * Predicates used in the statements *)

(** ** The four ways through the loop body *)

Inductive body_case (s : state) : control -> state -> Prop :=
| accept_requeue row stack' :
    stack s = stack' ++ [row] ->
    Qeq_bool (prev_balance s + amount row) (balance row) = true ->
    unbalanced_rows s <> [] ->
    body_case s Continue
      (mkstate (stack' ++ unbalanced_rows s) (balance row) []
               (balanced_rows s ++ [row]))
| accept_plain row stack' :
    stack s = stack' ++ [row] ->
    Qeq_bool (prev_balance s + amount row) (balance row) = true ->
    unbalanced_rows s = [] ->
    body_case s Continue
      (mkstate stack' (balance row) [] (balanced_rows s ++ [row]))
| defer row stack' :
    stack s = stack' ++ [row] ->
    Qeq_bool (prev_balance s + amount row) (balance row) = false ->
    other_date_deferred (unbalanced_rows s) row = false ->
    body_case s Continue
      (mkstate stack' (prev_balance s) (unbalanced_rows s ++ [row])
               (balanced_rows s))
| cutoff row stack' :
    stack s = stack' ++ [row] ->
    Qeq_bool (prev_balance s + amount row) (balance row) = false ->
    other_date_deferred (unbalanced_rows s) row = true ->
    body_case s Break
      (mkstate stack' (prev_balance s) (unbalanced_rows s) (balanced_rows s)).

(** ** States met during an attempt *)

(** States in which the loop condition is evaluated. *)
Inductive at_loop_head (s0 : state) : state -> Prop :=
| head_first : at_loop_head s0 s0
| head_next s s' :
    at_loop_head s0 s -> loop_body s = Some (Continue, s') ->
    at_loop_head s0 s'.

(** States in which the loop is left: the stack is empty, or [break]. *)
Inductive at_loop_exit (s0 : state) : state -> Prop :=
| exit_exhausted s :
    at_loop_head s0 s -> loop_body s = None -> at_loop_exit s0 s
| exit_break s s' :
    at_loop_head s0 s -> loop_body s = Some (Break, s') -> at_loop_exit s0 s'.

(** Rows not yet accepted, squared, plus the height of the stack: accepting a
    row lowers the first summand by more than the requeued rows add to the
    second; deferring a row lowers the second. *)
Definition measure (s : state) : nat :=
  let pending := (List.length (stack s) + List.length (unbalanced_rows s))%nat in
  (pending * pending + List.length (stack s))%nat.

(** The rows held by the three lists of a state. *)
Definition held (s : state) : list Row :=
  balanced_rows s ++ unbalanced_rows s ++ stack s.

(** ** Balance consistency *)

(** The running balance agrees along [l], starting from [prev]. *)
Fixpoint agrees (prev : Q) (l : list Row) : Prop :=
  match l with
  | [] => True
  | r :: l' => prev + amount r == balance r /\ agrees (balance r) l'
  end.

(** The same, by positions: [ordered[0]] agrees with the opening balance and
    [ordered[i]] with [ordered[i-1]]. *)
Definition balance_consistent (opening_balance : Q) (ordered : list Row) : Prop :=
  (forall r0, nth_error ordered 0 = Some r0 ->
              opening_balance + amount r0 == balance r0)
  /\ (forall i p r, nth_error ordered i = Some p ->
                    nth_error ordered (S i) = Some r ->
                    balance p + amount r == balance r).

(** The invariant of an attempt from [opening_balance]. *)
Definition running (opening_balance : Q) (s : state) : Prop :=
  agrees opening_balance (balanced_rows s)
  /\ prev_balance s = last (map balance (balanced_rows s)) opening_balance.

(** A sequence that is already in an order agreeing with its balances, for
    the opening balance that its first row gives. *)
Definition correctly_ordered (rows : list Row) : Prop :=
  match rows with
  | [] => True
  | r0 :: _ => balance_consistent (balance r0 - amount r0) rows
  end.

(** ** Dates of the input *)

(** The input is in ascending order of date. *)
Definition date_sorted (rows : list Row) : Prop :=
  Sorted (fun a b => datetime.leb (date a) (date b) = true) rows.

(** The rows that share the earliest date present, in input order. *)
Definition rows_of_earliest_date (rows : list Row) : list Row :=
  filter (fun r => forallb (fun r' => datetime.leb (date r) (date r')) rows)
         rows.

(** The deferred rows all have the date of the first of them. *)
Definition date_homogeneous (unbalanced : list Row) : Prop :=
  match unbalanced with
  | [] => True
  | u :: rest => forall r, In r rest -> date r = date u
  end.

(** Some deferred row has another date than [row]: the cutoff taken over the
    whole deferred list. *)
Definition some_other_date_deferred (unbalanced : list Row) (row : Row) : bool :=
  existsb (fun u => negb (datetime.eqb (date u) (date row))) unbalanced.

(** ** Entries *)

Definition is_transaction (e : beancount.Directive) : bool :=
  match e with beancount.Transaction _ _ _ _ _ _ _ _ => true | _ => false end.

Definition is_balance (e : beancount.Directive) : bool :=
  match e with beancount.Balance _ _ _ _ _ _ => true | _ => false end.

(** ** Candidate attempts *)

(** The attempt from [opening_balance] accepts every row of [rows]. *)
Definition succeeds (rows : list Row) (opening_balance : Q) (s : state) : Prop :=
  attempt (enough_fuel rows) rows opening_balance = Some s
  /\ List.length (balanced_rows s) = List.length rows.

(** The attempt from [opening_balance] is left with rows not accepted. *)
Definition fails (rows : list Row) (opening_balance : Q) (s : state) : Prop :=
  attempt (enough_fuel rows) rows opening_balance = Some s
  /\ List.length (balanced_rows s) <> List.length rows.

(** The balance that a directive dated [boundary] has to assert: the balance
    of the last row of [ordered] whose date is strictly before [boundary]. *)
Definition balance_before (ordered : list Row) (boundary : datetime.date)
  : option Q :=
  match filter (fun r => datetime.ltb (date r) boundary) (rev ordered) with
  | [] => None
  | r :: _ => Some (balance r)
  end.

(** The dates and the numbers of the balance directives among [entries]. *)
Fixpoint balance_directives (entries : list beancount.Directive)
  : list (datetime.date * Q) :=
  match entries with
  | [] => []
  | beancount.Balance _ on _ a _ _ :: rest =>
      (on, beancount.number a) :: balance_directives rest
  | _ :: rest => balance_directives rest
  end.

(** ** Sample statements *)

Module Sample.

Definition day1 : datetime.date := datetime.mkdate 2017 1 1.
Definition day2 : datetime.date := datetime.mkdate 2017 1 2.

(** Two rows of the first day in the wrong order, then a row of the next
    day: the first candidate fails, the second one succeeds. *)
Definition swapped : list Row :=
  [ mkRow 1 day1 "coffee" 5 15;
    mkRow 2 day1 "salary" 10 10;
    mkRow 3 day2 "refund" 20 35 ].

Definition swapped_ordered : list Row :=
  [ mkRow 2 day1 "salary" 10 10;
    mkRow 1 day1 "coffee" 5 15;
    mkRow 3 day2 "refund" 20 35 ].

(** A row of the first day is accepted only after a row of the second day. *)
Definition late : list Row :=
  [ mkRow 1 day1 "salary" 10 10;
    mkRow 2 day1 "coffee" 5 35;
    mkRow 3 day2 "refund" 20 30 ].

Definition late_ordered : list Row :=
  [ mkRow 1 day1 "salary" 10 10;
    mkRow 3 day2 "refund" 20 30;
    mkRow 2 day1 "coffee" 5 35 ].

(** No candidate orders these rows. *)
Definition irreconcilable : list Row :=
  [ mkRow 1 day1 "coffee" 5 15;
    mkRow 2 day1 "salary" 10 11;
    mkRow 3 day2 "refund" 20 35 ].

(** Three rows on three days, already in order. *)
Definition in_order : list Row :=
  [ mkRow 1 (datetime.mkdate 2017 1 10) "salary" 100 100;
    mkRow 2 (datetime.mkdate 2017 1 20) "refund" 50 150;
    mkRow 3 (datetime.mkdate 2017 1 31) "coffee" (-30) 120 ].

(** A statement with no row in February 2017. *)
Definition gap : list Row :=
  [ mkRow 1 (datetime.mkdate 2016 12 20) "salary" 100 100;
    mkRow 2 (datetime.mkdate 2017 1 5) "refund" 50 150;
    mkRow 3 (datetime.mkdate 2017 3 10) "coffee" (-30) 120 ].

Definition unanchored : Importer := mkImporter "Assets:Bank" "CAD" None "*".
Definition monthly : Importer := mkImporter "Assets:Bank" "CAD" (Some 1%Z) "*".

End Sample.

(** * Further code of the importer *)

(** ** What an entry is about *)

(** The accounts that an entry names: the accounts of the postings of a
    transaction, the account of a balance directive. *)
Definition entry_accounts (e : beancount.Directive) : list string :=
  match e with
  | beancount.Transaction _ _ _ _ _ _ _ postings =>
      map beancount.account postings
  | beancount.Balance _ _ acct _ _ _ => [acct]
  end.

(** The currencies of the amounts of an entry. *)
Definition entry_currencies (e : beancount.Directive) : list string :=
  match e with
  | beancount.Transaction _ _ _ _ _ _ _ postings =>
      map (fun p => beancount.currency (beancount.units p)) postings
  | beancount.Balance _ _ _ a _ _ => [beancount.currency a]
  end.

(** The boundary reached from [balance_date] after [k] steps of
    [periods.prev]. *)
Definition boundary_back (k : nat) (balance_date : datetime.date)
  : datetime.date :=
  Nat.iter k periods.prev balance_date.

(** The state of an attempt from [ob] before or after its first acceptance:
    nothing is accepted yet, the rows met so far are deferred in input order
    and none of them agrees with [ob]; or the first accepted row has the date
    [first_date]. *)
Definition first_acceptance (rows : list Row) (ob : Q)
           (first_date : datetime.date) (s : state) : Prop :=
  (balanced_rows s = [] /\ prev_balance s = ob
   /\ rows = unbalanced_rows s ++ rev (stack s)
   /\ Forall (fun r => Qeq_bool (ob + amount r) (balance r) = false)
             (unbalanced_rows s))
  \/ (exists r l, balanced_rows s = r :: l /\ date r = first_date).

(** ** [Importer.file_date] *)

Definition ValueError : string := "ValueError".

(** The loop of [max(iterable)]: a later item replaces the best one when it
    is greater. *)
Fixpoint max_from (best : datetime.date) (l : list datetime.date)
  : datetime.date :=
  match l with
  | [] => best
  | x :: rest => max_from (if datetime.ltb best x then x else best) rest
  end.

(** [max(iterable)] on dates; [ValueError] on an empty iterable. *)
Definition max_date (l : list datetime.date) : result datetime.date :=
  match l with
  | [] => Raise ValueError
  | x :: rest => Return (max_from x rest)
  end.

(** [Importer.file_date].  [parsed] is what [self.parse(file)] returned;
    [lowest_end] stands for [periods.lowest_end], which is not among the
    sources. *)
Definition file_date (lowest_end : datetime.date -> Z -> datetime.date)
           (self : Importer) (parsed : list Row) : result datetime.date :=
  bind (max_date (map date parsed)) (fun latest =>
    match first_day self with
    | Some anchor => Return (lowest_end latest anchor)
    | None => Return latest
    end).

(** ** The function [parse] of [csv.py] *)

Module csv.

(** An exception as the [except (csv.Error, ValueError)] clause sees it. *)
Inductive exception :=
| Error (message : string)
| ValueError (message : string)
| other (class_name message : string).

(** What one step of the iteration over [csv.reader(stream, dialect)] gives:
    a row of values, or [csv.Error]; [line_num] is [reader.line_num] after
    the step. *)
Inductive item :=
| fields (row : list string) (line_num : Z)
| malformed (message : string) (line_num : Z).

(** [[parse_row(row, reader.line_num) for row in reader if row]]: the rows,
    or the exception that stopped the comprehension and [reader.line_num] at
    that moment. *)
Fixpoint comprehension (parse_row : list string -> Z -> Row + exception)
         (reader : list item) : list Row + (exception * Z) :=
  match reader with
  | [] => inl []
  | malformed message line_num :: _ => inr (Error message, line_num)
  | fields row line_num :: rest =>
      if truthy row then
        match parse_row row line_num with
        | inr exc => inr (exc, line_num)
        | inl parsed =>
            match comprehension parse_row rest with
            | inl rows => inl (parsed :: rows)
            | inr failure => inr failure
            end
        end
      else comprehension parse_row rest
  end.

(** A call of [logging.error]: file name, line number and message. *)
Definition error_record : Type := (string * Z * string)%type.

(** [parse(file, dialect, parse_row)].  [filename] is [file.name] and
    [reader] is what the reader built from [file.contents()] and [dialect]
    yields.  An exception of another class than the two that are caught
    leaves the function. *)
Definition parse (filename : string) (reader : list item)
           (parse_row : list string -> Z -> Row + exception)
  : result (list Row * list error_record) :=
  match comprehension parse_row reader with
  | inl rows => Return (rows, [])
  | inr (Error message, line_num) => Return ([], [(filename, line_num, message)])
  | inr (ValueError message, line_num) =>
      Return ([], [(filename, line_num, message)])
  | inr (other class_name _, _) => Raise class_name
  end.

(** The rows of the reader that are not skipped by [if row]. *)
Definition kept (reader : list item) : list item :=
  filter (fun i => match i with
                   | fields row _ => truthy row
                   | malformed _ _ => true
                   end) reader.

(** [parse_row] turns the item into [parsed]. *)
Definition parses_to (parse_row : list string -> Z -> Row + exception)
           (i : item) (parsed : Row) : Prop :=
  match i with
  | fields row line_num => parse_row row line_num = inl parsed
  | malformed _ _ => False
  end.

(** The item stops the comprehension with [exc], at [line_num]: the reader
    raises [csv.Error] there, or [parse_row] raises on a row that is not
    empty. *)
Definition raises (parse_row : list string -> Z -> Row + exception)
           (i : item) (exc : exception) (line_num : Z) : Prop :=
  match i with
  | fields row n =>
      n = line_num /\ truthy row = true /\ parse_row row n = inr exc
  | malformed message n => n = line_num /\ exc = Error message
  end.

(** The message of an exception that [parse] catches. *)
Definition caught (exc : exception) : option string :=
  match exc with
  | Error message => Some message
  | ValueError message => Some message
  | other _ _ => None
  end.

End csv.

(** ** [beansoup/utils/dates.py] *)

(** The constants of the Python module [calendar] in the C locale. *)
Module calendar.

(** [calendar.month_abbr[1:]] *)
Definition month_abbr : list string :=
  ["Jan"; "Feb"; "Mar"; "Apr"; "May"; "Jun";
   "Jul"; "Aug"; "Sep"; "Oct"; "Nov"; "Dec"]%string.

(** [calendar.month_name[1:]] *)
Definition month_name : list string :=
  ["January"; "February"; "March"; "April"; "May"; "June"; "July";
   "August"; "September"; "October"; "November"; "December"]%string.

End calendar.

Module dates.

(** [str.lower()] on one ASCII character. *)
Definition lower_char (c : ascii) : ascii :=
  let n := nat_of_ascii c in
  if ((65 <=? n) && (n <=? 90))%nat then ascii_of_nat (n + 32) else c.

(** [str.lower()] on ASCII text. *)
Fixpoint lower (s : string) : string :=
  match s with
  | EmptyString => EmptyString
  | String c rest => String (lower_char c) (lower rest)
  end.

(** [enumerate(l, start=start)] *)
Fixpoint enumerate {A : Type} (l : list A) (start : Z) : list (Z * A) :=
  match l with
  | [] => []
  | x :: rest => (start, x) :: enumerate rest (start + 1)
  end.

(** [range(1, 13)] *)
Definition range_1_13 : list Z := map Z.of_nat (seq 1 12).

(** ['{0:1d}'.format(i)] for [0 <= i]. *)
Definition format_1d (i : Z) : string := NilZero.string_of_int (Z.to_int i).

(** ['{0:02d}'.format(i)] for [0 <= i]. *)
Definition format_02d (i : Z) : string :=
  let digits := format_1d i in
  if (String.length digits <? 2)%nat then String "0" digits else digits.

(** A [dict] with string keys, in insertion order. *)
Definition dict : Type := list (string * Z).

(** [d[k] = v] *)
Fixpoint dict_set (k : string) (v : Z) (d : dict) : dict :=
  match d with
  | [] => [(k, v)]
  | (k', v') :: rest =>
      if String.eqb k k' then (k, v) :: rest else (k', v') :: dict_set k v rest
  end.

(** [dict(pairs)]: a later pair replaces an earlier one with the same key. *)
Definition dict_of (pairs : list (string * Z)) : dict :=
  fold_left (fun d kv => dict_set (fst kv) (snd kv) d) pairs [].

(** [d.get(k)] *)
Fixpoint dict_get (k : string) (d : dict) : option Z :=
  match d with
  | [] => None
  | (k', v) :: rest => if String.eqb k k' then Some v else dict_get k rest
  end.

(** [MONTHS] *)
Definition MONTHS : dict :=
  dict_of
    (map (fun '(i, name) => (lower name, i))
         (enumerate calendar.month_abbr 1
            ++ enumerate calendar.month_name 1
            ++ enumerate (map format_1d range_1_13) 1
            ++ enumerate (map format_02d range_1_13) 1)).

(** A Python value given to [month_number]: a [str] or something else. *)
Inductive object :=
| str (s : string)
| int (z : Z)
| NoneType.

(** [month_number(month)] *)
Definition month_number (month : object) : option Z :=
  match month with
  | str s => dict_get (lower s) MONTHS
  | _ => None
  end.

(** The spellings of month [i] that [MONTHS] holds. *)
Definition spellings (i : Z) : list string :=
  [ lower (nth (Z.to_nat i - 1) calendar.month_abbr EmptyString);
    lower (nth (Z.to_nat i - 1) calendar.month_name EmptyString);
    format_1d i;
    format_02d i ].

Definition AssertionError : string := "AssertionError".

(** [add_biz_days(date, num_biz_days)] *)
Definition add_biz_days (d : datetime.date) (num_biz_days : Z)
  : result datetime.date :=
  if (0 <=? num_biz_days)%Z then
    (* Break the delta into a number of full weeks and a remainder *)
    let num_weeks := (num_biz_days / 5)%Z in
    let num_biz_days_left := (num_biz_days mod 5)%Z in
    let num_days := (num_weeks * 7 + num_biz_days_left)%Z in
    let weekday := datetime.weekday d in
    (* If the starting date falls on a weekend, move it to the next
       business day *)
    let '(num_days, weekday) :=
      if (5 <=? weekday)%Z then ((num_days + (7 - weekday))%Z, 0%Z)
      else (num_days, weekday) in
    (* If the business days left span a weekend, add that in as well *)
    let num_days :=
      if (5 <=? weekday + num_biz_days_left)%Z then (num_days + 2)%Z
      else num_days in
    Return (datetime.add_days d num_days)
  else Raise AssertionError.

(** The number of days that [add_biz_days] adds to a date whose weekday is
    [weekday]: the value of [num_days] at the [return]. *)
Definition days_added (weekday num_biz_days : Z) : Z :=
  let num_weeks := (num_biz_days / 5)%Z in
  let num_biz_days_left := (num_biz_days mod 5)%Z in
  let num_days := (num_weeks * 7 + num_biz_days_left)%Z in
  let '(num_days, weekday) :=
    if (5 <=? weekday)%Z then ((num_days + (7 - weekday))%Z, 0%Z)
    else (num_days, weekday) in
  if (5 <=? weekday + num_biz_days_left)%Z then (num_days + 2)%Z
  else num_days.

(** The next business day after a business day. *)
Definition next_biz_day (d : datetime.date) : datetime.date :=
  datetime.add_days d (if (datetime.weekday d =? 4)%Z then 3 else 1).

End dates.

(** * Properties of the placement loop *)

(** ** Dates and Python lists *)

Lemma datetime_eqb_eq (a b : datetime.date) :
  datetime.eqb a b = true <-> a = b.
Proof.
  unfold datetime.eqb. destruct a as [ya ma da], b as [yb mb db]; simpl.
  rewrite !andb_true_iff, !Z.eqb_eq. split.
  - intros [[-> ->] ->]. reflexivity.
  - intros H. injection H as -> -> ->. auto.
Qed.

Lemma datetime_eqb_refl (a : datetime.date) : datetime.eqb a a = true.
Proof. apply datetime_eqb_eq. reflexivity. Qed.

Lemma pop_nil {A : Type} : pop (@nil A) = None.
Proof. reflexivity. Qed.

Lemma pop_snoc {A : Type} (l : list A) (x : A) : pop (l ++ [x]) = Some (x, l).
Proof. unfold pop. rewrite rev_app_distr. simpl. now rewrite rev_involutive. Qed.

Lemma pop_Some {A : Type} (l l' : list A) (x : A) :
  pop l = Some (x, l') -> l = l' ++ [x].
Proof.
  unfold pop. destruct (rev l) as [|y r] eqn:E; [discriminate|].
  intros H. injection H as -> <-.
  rewrite <- (rev_involutive l), E. reflexivity.
Qed.

Lemma pop_None {A : Type} (l : list A) : pop l = None -> l = [].
Proof.
  unfold pop. destruct (rev l) as [|y r] eqn:E; [|discriminate].
  intros _. rewrite <- (rev_involutive l), E. reflexivity.
Qed.

Lemma exists_last_or_nil {A : Type} (l : list A) :
  l = [] \/ exists earlier x, l = earlier ++ [x].
Proof.
  destruct l as [|a l]; [now left|right].
  destruct (@exists_last _ (a :: l)) as [earlier [x H]]; [discriminate|].
  eauto.
Qed.

Lemma truthy_false {A : Type} (l : list A) : truthy l = false -> l = [].
Proof. destruct l; [reflexivity|discriminate]. Qed.


Lemma loop_body_case (s s' : state) (c : control) :
  loop_body s = Some (c, s') -> body_case s c s'.
Proof.
  unfold loop_body.
  destruct (pop (stack s)) as [[row stack']|] eqn:Hpop; [|discriminate].
  apply pop_Some in Hpop.
  destruct (Qeq_bool (prev_balance s + amount row) (balance row)) eqn:Hq.
  - destruct (truthy (unbalanced_rows s)) eqn:Ht; intros H; injection H as <- <-.
    + eapply accept_requeue; eauto. intros E. rewrite E in Ht. discriminate.
    + apply truthy_false in Ht. rewrite Ht. eapply accept_plain; eauto.
  - destruct (other_date_deferred (unbalanced_rows s) row) eqn:Ho;
      intros H; injection H as <- <-.
    + eapply cutoff; eauto.
    + eapply defer; eauto.
Qed.

Lemma loop_body_None (s : state) : loop_body s = None -> stack s = [].
Proof.
  unfold loop_body.
  destruct (pop (stack s)) as [[row stack']|] eqn:Hpop.
  - destruct (Qeq_bool _ _); [destruct (truthy _)|destruct (other_date_deferred _ _)];
      discriminate.
  - intros _. now apply pop_None.
Qed.

Lemma other_date_deferred_true (unbalanced : list Row) (row : Row) :
  other_date_deferred unbalanced row = true -> unbalanced <> [].
Proof. destruct unbalanced; [discriminate|discriminate]. Qed.


Lemma while_stack_exit_from (fuel : nat) (s0 s s_end : state) :
  at_loop_head s0 s -> while_stack fuel s = Some s_end -> at_loop_exit s0 s_end.
Proof.
  revert s. induction fuel as [|fuel IH]; intros s Hs; simpl; [discriminate|].
  destruct (loop_body s) as [[[|] s']|] eqn:Hb.
  - intros H. eapply IH; [|exact H]. eapply head_next; eauto.
  - intros H. injection H as <-. eapply exit_break; eauto.
  - intros H. injection H as <-. eapply exit_exhausted; eauto.
Qed.

Lemma while_stack_exit (fuel : nat) (s0 s_end : state) :
  while_stack fuel s0 = Some s_end -> at_loop_exit s0 s_end.
Proof. apply while_stack_exit_from. constructor. Qed.

(** An invariant of the [Continue] steps holds at every loop head. *)
Lemma at_loop_head_ind_inv (P : state -> Prop) (s0 : state) :
  P s0 ->
  (forall s s', P s -> body_case s Continue s' -> P s') ->
  forall s, at_loop_head s0 s -> P s.
Proof.
  intros H0 Hstep s Hs. induction Hs as [|s s' _ IH Hb]; [assumption|].
  eapply Hstep; [exact IH|]. now apply loop_body_case.
Qed.

(** ** Termination of the loop *)


Lemma body_case_measure (s s' : state) :
  body_case s Continue s' -> (measure s' < measure s)%nat.
Proof.
  intros H. inversion H as [row st Hst Hq Hu|row st Hst Hq Hu|row st Hst Hq Ho|];
    subst; unfold measure; simpl; rewrite Hst;
    repeat rewrite ?length_app, ?Hu; simpl; nia.
Qed.

Lemma while_stack_total (fuel : nat) (s : state) :
  (measure s < fuel)%nat -> exists s_end, while_stack fuel s = Some s_end.
Proof.
  revert s. induction fuel as [|fuel IH]; intros s Hm; [lia|]. simpl.
  destruct (loop_body s) as [[[|] s']|] eqn:Hb; eauto.
  apply IH. apply loop_body_case, body_case_measure in Hb. lia.
Qed.

Lemma while_stack_more_fuel (fuel fuel' : nat) (s s_end : state) :
  while_stack fuel s = Some s_end -> (fuel <= fuel')%nat ->
  while_stack fuel' s = Some s_end.
Proof.
  revert fuel' s. induction fuel as [|fuel IH]; intros fuel' s; simpl;
    [discriminate|].
  intros H Hle. destruct fuel' as [|fuel']; [lia|]. simpl.
  destruct (loop_body s) as [[[|] s']|]; auto. apply IH; [assumption|lia].
Qed.

Lemma measure_initial_state (rows : list Row) (opening_balance : Q) :
  (measure (initial_state rows opening_balance) < enough_fuel rows)%nat.
Proof.
  unfold measure, enough_fuel, initial_state; simpl.
  rewrite length_rev. lia.
Qed.

Lemma attempt_total (rows : list Row) (opening_balance : Q) :
  exists s_end, attempt (enough_fuel rows) rows opening_balance = Some s_end.
Proof. apply while_stack_total, measure_initial_state. Qed.

Lemma attempt_more_fuel (fuel : nat) (rows : list Row) (ob : Q) (s : state) :
  attempt (enough_fuel rows) rows ob = Some s ->
  (enough_fuel rows <= fuel)%nat ->
  attempt fuel rows ob = Some s.
Proof. unfold attempt. intros. eapply while_stack_more_fuel; eauto. Qed.

(** ** No row is lost *)


Lemma body_case_held (s s' : state) :
  body_case s Continue s' -> Permutation (held s') (held s).
Proof.
  intros H. inversion H as [row st Hst Hq Hu|row st Hst Hq Hu|row st Hst Hq Ho|];
    subst; unfold held; simpl; rewrite Hst, ?Hu; simpl.
  - rewrite <- app_assoc. apply Permutation_app_head. simpl.
    transitivity (row :: unbalanced_rows s ++ st).
    + constructor. apply Permutation_app_comm.
    + rewrite app_assoc. apply Permutation_cons_append.
  - rewrite <- app_assoc. apply Permutation_app_head. simpl.
    apply Permutation_cons_append.
  - apply Permutation_app_head. rewrite <- app_assoc.
    apply Permutation_app_head. simpl. apply Permutation_cons_append.
Qed.

Lemma at_loop_head_held (rows : list Row) (ob : Q) (s : state) :
  at_loop_head (initial_state rows ob) s -> Permutation (held s) rows.
Proof.
  apply (at_loop_head_ind_inv (fun s => Permutation (held s) rows)).
  - unfold held, initial_state; simpl. symmetry. apply Permutation_rev.
  - intros s1 s2 IH Hc. rewrite (body_case_held _ _ Hc). exact IH.
Qed.

(** What is known when an attempt is over: either every row is accepted or
    deferred, or the loop was cut and a deferred row remains. *)
Lemma at_loop_exit_held (rows : list Row) (ob : Q) (s : state) :
  at_loop_exit (initial_state rows ob) s ->
  (stack s = [] /\ Permutation (balanced_rows s ++ unbalanced_rows s) rows)
  \/ (unbalanced_rows s <> []
      /\ (List.length (balanced_rows s) < List.length rows)%nat).
Proof.
  intros [s1 Hh Hb|s1 s2 Hh Hb].
  - left. apply loop_body_None in Hb. split; [assumption|].
    apply at_loop_head_held in Hh. unfold held in Hh.
    now rewrite Hb, app_nil_r in Hh.
  - right. apply at_loop_head_held in Hh. apply Permutation_length in Hh.
    apply loop_body_case in Hb.
    inversion Hb as [| | |row st Hst Hq Ho]; subst; simpl.
    split; [eapply other_date_deferred_true; eauto|].
    unfold held in Hh. rewrite Hst in Hh.
    apply other_date_deferred_true in Ho.
    rewrite !length_app in Hh. simpl in Hh. lia.
Qed.

Lemma attempt_exit (fuel : nat) (rows : list Row) (ob : Q) (s : state) :
  attempt fuel rows ob = Some s -> at_loop_exit (initial_state rows ob) s.
Proof. apply while_stack_exit. Qed.

(** An attempt that accepted as many rows as there are accepted them all. *)
Lemma attempt_complete (fuel : nat) (rows : list Row) (ob : Q) (s : state) :
  attempt fuel rows ob = Some s ->
  List.length (balanced_rows s) = List.length rows ->
  Permutation rows (balanced_rows s).
Proof.
  intros Ha Hlen. apply attempt_exit, at_loop_exit_held in Ha.
  destruct Ha as [[_ Hp]|[_ Hlt]]; [|lia].
  assert (Hu : unbalanced_rows s = []).
  { apply Permutation_length in Hp. rewrite length_app in Hp.
    destruct (unbalanced_rows s); [reflexivity|simpl in Hp; lia]. }
  rewrite Hu, app_nil_r in Hp. now symmetry.
Qed.

(** An attempt that did not accept every row leaves a deferred row. *)
Lemma attempt_incomplete (fuel : nat) (rows : list Row) (ob : Q) (s : state) :
  attempt fuel rows ob = Some s ->
  List.length (balanced_rows s) <> List.length rows ->
  unbalanced_rows s <> [].
Proof.
  intros Ha Hlen. apply attempt_exit, at_loop_exit_held in Ha.
  destruct Ha as [[_ Hp]|[Hu _]]; [|assumption].
  intros Hu. rewrite Hu, app_nil_r in Hp. apply Permutation_length in Hp.
  contradiction.
Qed.

(** ** The accepted rows agree with their balances *)

Lemma last_nonempty {A : Type} (l : list A) (a d d' : A) :
  last (a :: l) d = last (a :: l) d'.
Proof.
  revert a. induction l as [|b l IH]; intros a; [reflexivity|].
  change (last (a :: b :: l) d) with (last (b :: l) d).
  change (last (a :: b :: l) d') with (last (b :: l) d').
  apply IH.
Qed.

Lemma agrees_snoc (prev : Q) (l : list Row) (r : Row) :
  agrees prev l ->
  last (map balance l) prev + amount r == balance r ->
  agrees prev (l ++ [r]).
Proof.
  revert prev. induction l as [|x l IH]; intros prev Hl Hr.
  - split; [exact Hr|exact I].
  - destruct Hl as [Hx Hl]. split; [assumption|].
    apply IH; [assumption|].
    destruct l as [|y l]; [exact Hr|].
    change (map balance (x :: y :: l))
      with (balance x :: map balance (y :: l)) in Hr.
    change (last (balance x :: map balance (y :: l)) prev)
      with (last (map balance (y :: l)) prev) in Hr.
    simpl map in *. rewrite (last_nonempty _ _ _ prev). exact Hr.
Qed.

Lemma last_map_snoc (prev : Q) (l : list Row) (r : Row) :
  last (map balance (l ++ [r])) prev = balance r.
Proof. rewrite map_app. simpl. apply last_last. Qed.

Lemma agrees_consistent (prev : Q) (l : list Row) :
  agrees prev l <-> balance_consistent prev l.
Proof.
  unfold balance_consistent. revert prev.
  induction l as [|x l IH]; intros prev; simpl.
  - split; [|trivial]. intros _. split.
    + intros r0 H. discriminate.
    + intros [|i] p r H; discriminate.
  - rewrite IH. split.
    + intros [Hx [H0 Hn]]. split.
      * intros r0 H. injection H as <-. assumption.
      * intros [|i] p r Hp Hr; simpl in *.
        -- injection Hp as <-. now apply H0.
        -- eapply Hn; eauto.
    + intros [H0 Hn]. split; [now apply H0|]. split.
      * intros r0 H. apply (Hn 0%nat x r0); [reflexivity|exact H].
      * intros i p r Hp Hr. apply (Hn (S i) p r); assumption.
Qed.

Lemma body_case_running (ob : Q) (s s' : state) :
  running ob s -> body_case s Continue s' -> running ob s'.
Proof.
  intros [Ha Hp] H.
  inversion H as [row st Hst Hq Hu|row st Hst Hq Hu|row st Hst Hq Ho|];
    subst; unfold running; simpl.
  - split; [|now rewrite last_map_snoc].
    apply agrees_snoc; [assumption|]. rewrite <- Hp. now apply Qeq_bool_iff.
  - split; [|now rewrite last_map_snoc].
    apply agrees_snoc; [assumption|]. rewrite <- Hp. now apply Qeq_bool_iff.
  - split; assumption.
Qed.

Lemma at_loop_exit_running (rows : list Row) (ob : Q) (s : state) :
  at_loop_exit (initial_state rows ob) s -> running ob s.
Proof.
  assert (Hhead : forall s1, at_loop_head (initial_state rows ob) s1 ->
                             running ob s1).
  { apply (at_loop_head_ind_inv (running ob)).
    - split; simpl; [exact I|reflexivity].
    - intros s1 s2. apply body_case_running. }
  intros [s1 Hh Hb|s1 s2 Hh Hb]; [now apply Hhead|].
  apply Hhead in Hh. apply loop_body_case in Hb.
  inversion Hb; subst. exact Hh.
Qed.

Lemma attempt_agrees (fuel : nat) (rows : list Row) (ob : Q) (s : state) :
  attempt fuel rows ob = Some s -> agrees ob (balanced_rows s).
Proof. intros H. apply attempt_exit, at_loop_exit_running in H. apply H. Qed.

(** ** A sequence already in order is accepted row by row *)

Lemma while_stack_in_order (l accepted : list Row) (prev : Q) (fuel : nat) :
  agrees prev l -> (List.length l < fuel)%nat ->
  while_stack fuel (mkstate (rev l) prev [] accepted)
  = Some (mkstate [] (last (map balance l) prev) [] (accepted ++ l)).
Proof.
  revert accepted prev fuel.
  induction l as [|r l IH]; intros accepted prev fuel Hl Hf.
  - destruct fuel as [|fuel]; [simpl in Hf; lia|]. simpl.
    now rewrite app_nil_r.
  - destruct fuel as [|fuel]; [simpl in Hf; lia|].
    destruct Hl as [Hr Hl]. simpl in Hf.
    cbn [while_stack]. unfold loop_body. cbn [stack rev].
    rewrite pop_snoc. cbn [prev_balance unbalanced_rows balanced_rows truthy].
    apply Qeq_bool_iff in Hr. rewrite Hr.
    rewrite IH; [|assumption|lia].
    rewrite <- app_assoc. simpl app. do 2 f_equal.
    destruct l as [|y l]; [reflexivity|].
    change (map balance (r :: y :: l))
      with (balance r :: map balance (y :: l)).
    change (last (balance r :: map balance (y :: l)) prev)
      with (last (map balance (y :: l)) prev).
    simpl map. apply last_nonempty.
Qed.

(** ** The deferred rows share one date *)

Lemma date_homogeneous_snoc (unbalanced : list Row) (row : Row) :
  date_homogeneous unbalanced ->
  other_date_deferred unbalanced row = false ->
  date_homogeneous (unbalanced ++ [row]).
Proof.
  destruct unbalanced as [|u rest]; simpl; [intros _ _ r []|].
  intros Hh Ho r Hin. apply negb_false_iff, datetime_eqb_eq in Ho.
  apply in_app_or in Hin. destruct Hin as [Hin|[<-|[]]]; [now apply Hh|].
  now symmetry.
Qed.

Lemma body_case_homogeneous (s s' : state) (c : control) :
  date_homogeneous (unbalanced_rows s) -> body_case s c s' ->
  date_homogeneous (unbalanced_rows s').
Proof.
  intros Hh H.
  inversion H as [row st Hst Hq Hu|row st Hst Hq Hu|row st Hst Hq Ho
                 |row st Hst Hq Ho]; subst; simpl; try exact I; try assumption.
  now apply date_homogeneous_snoc.
Qed.

Lemma at_loop_head_homogeneous (rows : list Row) (ob : Q) (s : state) :
  at_loop_head (initial_state rows ob) s ->
  date_homogeneous (unbalanced_rows s).
Proof.
  apply (at_loop_head_ind_inv (fun s => date_homogeneous (unbalanced_rows s))).
  - exact I.
  - intros s1 s2 Hh Hc. eapply body_case_homogeneous; eauto.
Qed.

(** On a homogeneous list the test on the first deferred row is the test on
    all of them. *)
Lemma other_date_deferred_all (unbalanced : list Row) (row : Row) :
  date_homogeneous unbalanced ->
  other_date_deferred unbalanced row = some_other_date_deferred unbalanced row.
Proof.
  destruct unbalanced as [|u rest]; simpl; [reflexivity|].
  intros Hh.
  destruct (datetime.eqb (date u) (date row)) eqn:E; simpl; [|reflexivity].
  symmetry. apply not_true_is_false. intros Hex.
  apply existsb_exists in Hex. destruct Hex as [r [Hin Hr]].
  rewrite (Hh r Hin), E in Hr. discriminate.
Qed.

(** ** The loop over the candidates *)

Lemma attempt_succeeds_or_fails (rows : list Row) (ob : Q) :
  exists s, succeeds rows ob s \/ fails rows ob s.
Proof.
  destruct (attempt_total rows ob) as [s Hs]. exists s.
  unfold succeeds, fails.
  destruct (Nat.eq_dec (List.length (balanced_rows s)) (List.length rows));
    auto.
Qed.

Lemma succeeds_not_fails (rows : list Row) (ob : Q) (s s' : state) :
  succeeds rows ob s -> fails rows ob s' -> False.
Proof.
  intros [Ha Hl] [Ha' Hl']. rewrite Ha in Ha'. injection Ha' as <-. auto.
Qed.

(** One turn of the [for] loop on a candidate that fails. *)
Lemma try_candidates_fail_step (fuel : nat) (rows : list Row) (ob : Q)
      (candidates : list Q) (e : Z) (s : state) :
  (enough_fuel rows <= fuel)%nat -> fails rows ob s ->
  exists u rest,
    unbalanced_rows s = u :: rest
    /\ try_candidates fuel rows (ob :: candidates) e
       = try_candidates fuel rows candidates (lineno u).
Proof.
  intros Hf [Ha Hl].
  pose proof (attempt_incomplete _ _ _ _ Ha Hl) as Hu.
  destruct (unbalanced_rows s) as [|u rest] eqn:E; [contradiction|].
  exists u, rest. split; [reflexivity|]. simpl.
  rewrite (attempt_more_fuel fuel _ _ _ Ha Hf).
  apply Nat.eqb_neq in Hl. now rewrite Hl, E.
Qed.

(** One turn of the [for] loop on a candidate that succeeds. *)
Lemma try_candidates_success_step (fuel : nat) (rows : list Row) (ob : Q)
      (candidates : list Q) (e : Z) (s : state) :
  (enough_fuel rows <= fuel)%nat -> succeeds rows ob s ->
  try_candidates fuel rows (ob :: candidates) e
  = Return (balanced_rows s, None).
Proof.
  intros Hf [Ha Hl]. simpl. rewrite (attempt_more_fuel fuel _ _ _ Ha Hf).
  apply Nat.eqb_eq in Hl. now rewrite Hl.
Qed.

Lemma try_candidates_returns (rows : list Row) (candidates : list Q) (e : Z) :
  exists res, forall fuel, (enough_fuel rows <= fuel)%nat ->
    try_candidates fuel rows candidates e = Return res.
Proof.
  revert e. induction candidates as [|ob candidates IH]; intros e.
  - exists (rows, Some e). reflexivity.
  - destruct (attempt_succeeds_or_fails rows ob) as [s [Hs|Hs]].
    + exists (balanced_rows s, None). intros fuel Hf.
      now apply try_candidates_success_step.
    + destruct (try_candidates_fail_step (enough_fuel rows) rows ob candidates
                  e s (le_n _) Hs) as [u [rest [Hu _]]].
      destruct (IH (lineno u)) as [res Hres]. exists res. intros fuel Hf.
      destruct (try_candidates_fail_step fuel rows ob candidates e s Hf Hs)
        as [u' [rest' [Hu' ->]]].
      rewrite Hu in Hu'. injection Hu' as <- <-. now apply Hres.
Qed.

Lemma sort_rows_fuel_returns (rows : list Row) :
  exists res, forall fuel, (enough_fuel rows <= fuel)%nat ->
    sort_rows_fuel fuel rows = Return res.
Proof.
  unfold sort_rows_fuel. destruct (List.length rows <=? 1)%nat.
  - exists (rows, None). reflexivity.
  - apply try_candidates_returns.
Qed.

Lemma sort_rows_returns (rows : list Row) :
  exists ordered error_lineno, sort_rows rows = Return (ordered, error_lineno).
Proof.
  destruct (sort_rows_fuel_returns rows) as [[ordered err] H].
  exists ordered, err. apply H. apply le_n.
Qed.

(** What a returned pair says about the candidates. *)
Lemma try_candidates_inv (rows : list Row) (candidates : list Q) (e : Z)
      (out : list Row) (err : option Z) :
  try_candidates (enough_fuel rows) rows candidates e = Return (out, err) ->
  (err = None
   /\ exists ob s, In ob candidates /\ succeeds rows ob s
                   /\ out = balanced_rows s)
  \/ (out = rows /\ err <> None).
Proof.
  revert e. induction candidates as [|ob candidates IH]; intros e.
  - simpl. intros H. injection H as <- <-. right. split; [reflexivity|discriminate].
  - destruct (attempt_succeeds_or_fails rows ob) as [s [Hs|Hs]].
    + rewrite (try_candidates_success_step _ _ _ _ _ _ (le_n _) Hs).
      intros H. injection H as <- <-. left. split; [reflexivity|].
      exists ob, s. simpl. auto.
    + destruct (try_candidates_fail_step _ rows ob candidates e s (le_n _) Hs)
        as [u [rest [_ ->]]].
      intros H. apply IH in H.
      destruct H as [[He [ob' [s' [Hin [Hs' Ho]]]]]|H]; [left|now right].
      split; [assumption|]. exists ob', s'. simpl. auto.
Qed.

(** The first candidate that succeeds decides the result. *)
Lemma try_candidates_first_success (rows : list Row) (pre post : list Q)
      (ob : Q) (e : Z) (s : state) :
  (forall ob' s', In ob' pre -> ~ succeeds rows ob' s') ->
  succeeds rows ob s ->
  try_candidates (enough_fuel rows) rows (pre ++ ob :: post) e
  = Return (balanced_rows s, None).
Proof.
  revert e. induction pre as [|ob' pre IH]; intros e Hpre Hs.
  - now apply try_candidates_success_step.
  - destruct (attempt_succeeds_or_fails rows ob') as [s' [Hs'|Hs']].
    + exfalso. apply (Hpre ob' s'); [now left|assumption].
    + simpl app.
      destruct (try_candidates_fail_step _ rows ob' (pre ++ ob :: post) e s'
                  (le_n _) Hs') as [u [rest [_ ->]]].
      apply IH; [|assumption]. intros ob'' s'' Hin. apply Hpre. now right.
Qed.

(** When every candidate fails, the last one gives the diagnostic. *)
Lemma try_candidates_all_fail (rows : list Row) (pre : list Q) (ob : Q) (e : Z) :
  (forall ob' s', In ob' (pre ++ [ob]) -> ~ succeeds rows ob' s') ->
  exists s u rest,
    fails rows ob s /\ unbalanced_rows s = u :: rest
    /\ try_candidates (enough_fuel rows) rows (pre ++ [ob]) e
       = Return (rows, Some (lineno u)).
Proof.
  revert e. induction pre as [|ob' pre IH]; intros e Hall.
  - destruct (attempt_succeeds_or_fails rows ob) as [s [Hs|Hs]].
    + exfalso. apply (Hall ob s); [now left|assumption].
    + destruct (try_candidates_fail_step _ rows ob [] e s (le_n _) Hs)
        as [u [rest [Hu Ht]]].
      exists s, u, rest. repeat split; try assumption; try apply Hs.
  - destruct (attempt_succeeds_or_fails rows ob') as [s' [Hs'|Hs']].
    + exfalso. apply (Hall ob' s'); [now left|assumption].
    + simpl app.
      destruct (try_candidates_fail_step _ rows ob' (pre ++ [ob]) e s'
                  (le_n _) Hs') as [u' [rest' [_ ->]]].
      apply IH. intros ob'' s'' Hin. apply Hall. now right.
Qed.

(** ** The order of dates and the candidates of a sorted input *)

Lemma datetime_leb_iff (a b : datetime.date) :
  datetime.leb a b = true <->
  (datetime.year a < datetime.year b
   \/ (datetime.year a = datetime.year b
       /\ (datetime.month a < datetime.month b
           \/ (datetime.month a = datetime.month b
               /\ datetime.day a <= datetime.day b))))%Z.
Proof.
  unfold datetime.leb, datetime.ltb, datetime.eqb.
  rewrite ?orb_true_iff, ?andb_true_iff, ?orb_true_iff, ?andb_true_iff,
    ?Z.ltb_lt, ?Z.eqb_eq.
  lia.
Qed.

Lemma datetime_leb_trans (a b c : datetime.date) :
  datetime.leb a b = true -> datetime.leb b c = true ->
  datetime.leb a c = true.
Proof. rewrite !datetime_leb_iff. lia. Qed.

Lemma datetime_leb_antisym (a b : datetime.date) :
  datetime.leb a b = true -> datetime.leb b a = true -> a = b.
Proof.
  rewrite !datetime_leb_iff. destruct a as [ya ma da], b as [yb mb db]; simpl.
  intros H1 H2. assert (ya = yb /\ ma = mb /\ da = db) as [-> [-> ->]] by lia.
  reflexivity.
Qed.

Lemma datetime_leb_refl (a : datetime.date) : datetime.leb a a = true.
Proof. rewrite datetime_leb_iff. lia. Qed.

Lemma date_sorted_first (r0 : Row) (rest : list Row) :
  date_sorted (r0 :: rest) ->
  forall r, In r (r0 :: rest) -> datetime.leb (date r0) (date r) = true.
Proof.
  intros Hs r [<-|Hin]; [apply datetime_leb_refl|].
  apply Sorted_extends in Hs.
  - rewrite Forall_forall in Hs. now apply Hs.
  - intros x y z. apply datetime_leb_trans.
Qed.

Lemma date_sorted_tail (r0 : Row) (rest : list Row) :
  date_sorted (r0 :: rest) -> date_sorted rest.
Proof. intros H. now inversion H. Qed.

Lemma takewhile_In {A : Type} (p : A -> bool) (l : list A) (x : A) :
  In x (takewhile p l) -> In x l /\ p x = true.
Proof.
  induction l as [|y l IH]; simpl; [intros []|].
  destruct (p y) eqn:E; [|intros []].
  intros [<-|Hin]; [auto|]. destruct (IH Hin). auto.
Qed.

Lemma filter_none {A : Type} (p : A -> bool) (l : list A) :
  (forall x, In x l -> p x = false) -> filter p l = [].
Proof.
  induction l as [|y l IH]; intros H; simpl; [reflexivity|].
  rewrite (H y (or_introl eq_refl)). apply IH. intros x Hx. apply H. now right.
Qed.

(** On a sorted list the rows of the least date form a prefix. *)
Lemma takewhile_filter_sorted (d : datetime.date) (l : list Row) :
  date_sorted l ->
  (forall r, In r l -> datetime.leb d (date r) = true) ->
  takewhile (fun r => datetime.eqb (date r) d) l
  = filter (fun r => datetime.eqb (date r) d) l.
Proof.
  induction l as [|x l IH]; intros Hs Hd; simpl; [reflexivity|].
  destruct (datetime.eqb (date x) d) eqn:E.
  - f_equal. apply IH; [now apply date_sorted_tail in Hs|].
    intros r Hr. apply Hd. now right.
  - symmetry. apply filter_none. intros r Hr.
    apply not_true_is_false. intros Er. apply datetime_eqb_eq in Er.
    assert (Hx : datetime.leb (date x) (date r) = true).
    { apply (date_sorted_first x l Hs). now right. }
    rewrite Er in Hx.
    assert (date x = d).
    { apply datetime_leb_antisym; [assumption|]. apply Hd. now left. }
    apply datetime_eqb_eq in H. rewrite H in E. discriminate.
Qed.

(** On a sorted list the date of the first row is the earliest date. *)
Lemma rows_of_earliest_date_sorted (r0 : Row) (rest : list Row) :
  date_sorted (r0 :: rest) ->
  rows_of_earliest_date (r0 :: rest)
  = filter (fun r => datetime.eqb (date r) (date r0)) (r0 :: rest).
Proof.
  intros Hs. unfold rows_of_earliest_date. apply filter_ext_in.
  intros r Hr. pose proof (date_sorted_first r0 rest Hs) as Hfirst.
  destruct (datetime.eqb (date r) (date r0)) eqn:E.
  - apply datetime_eqb_eq in E. rewrite E. apply forallb_forall.
    exact Hfirst.
  - apply not_true_is_false. intros Hall.
    rewrite forallb_forall in Hall.
    assert (date r = date r0).
    { apply datetime_leb_antisym; [|now apply Hfirst].
      apply Hall. now left. }
    apply datetime_eqb_eq in H. rewrite H in E. discriminate.
Qed.

Lemma opening_balances_sorted (rows : list Row) :
  date_sorted rows ->
  opening_balances rows
  = map (fun row => balance row - amount row) (rows_of_earliest_date rows).
Proof.
  destruct rows as [|r0 rest]; [reflexivity|]. intros Hs.
  unfold opening_balances. f_equal.
  rewrite rows_of_earliest_date_sorted by assumption.
  apply takewhile_filter_sorted; [assumption|].
  now apply date_sorted_first.
Qed.

(** Every candidate is computed from a row of the first date. *)
Lemma opening_balances_In (rows : list Row) (ob : Q) :
  In ob (opening_balances rows) ->
  exists r0 r, hd_error rows = Some r0 /\ In r rows
               /\ date r = date r0 /\ ob = balance r - amount r.
Proof.
  destruct rows as [|r0 rest]; [intros []|]. unfold opening_balances.
  intros Hin. apply in_map_iff in Hin. destruct Hin as [r [<- Hr]].
  apply takewhile_In in Hr. destruct Hr as [Hr Hd].
  apply datetime_eqb_eq in Hd. exists r0, r. auto.
Qed.

Lemma opening_balances_first (r0 : Row) (rest : list Row) :
  exists others,
    opening_balances (r0 :: rest) = (balance r0 - amount r0) :: others.
Proof.
  unfold opening_balances. simpl. rewrite datetime_eqb_refl. simpl. eauto.
Qed.

Lemma sort_rows_Permutation (rows ordered : list Row) (err : option Z) :
  sort_rows rows = Return (ordered, err) -> Permutation rows ordered.
Proof.
  unfold sort_rows, sort_rows_fuel. destruct (List.length rows <=? 1)%nat.
  - intros H. injection H as <- _. reflexivity.
  - intros H. apply try_candidates_inv in H.
    destruct H as [[_ [ob [s [_ [[Ha Hl] ->]]]]]|[-> _]]; [|reflexivity].
    eapply attempt_complete; eauto.
Qed.

(** ** The entries built by [extract] *)

Lemma transaction_loop_app (self : Importer) (filename : string) (index : nat)
      (rows : list Row) (entries : list beancount.Directive) :
  transaction_loop self filename index rows entries
  = entries ++ transaction_loop self filename index rows [].
Proof.
  revert index entries. induction rows as [|row rest IH]; intros index entries.
  - simpl. now rewrite app_nil_r.
  - simpl. rewrite IH, (IH _ [_]), app_assoc. reflexivity.
Qed.

Lemma transaction_loop_cons (self : Importer) (filename : string) (index : nat)
      (row : Row) (rest : list Row) :
  transaction_loop self filename index (row :: rest) []
  = transaction_entry self filename index row
      :: transaction_loop self filename (S index) rest [].
Proof. simpl. now rewrite transaction_loop_app. Qed.

Lemma transaction_loop_length (self : Importer) (filename : string)
      (index : nat) (rows : list Row) :
  List.length (transaction_loop self filename index rows [])
  = List.length rows.
Proof.
  revert index. induction rows as [|row rest IH]; intros index; [reflexivity|].
  rewrite transaction_loop_cons. simpl. now rewrite IH.
Qed.

Lemma transaction_loop_nth (self : Importer) (filename : string) (index : nat)
      (rows : list Row) (i : nat) (row : Row) :
  nth_error rows i = Some row ->
  nth_error (transaction_loop self filename index rows []) i
  = Some (transaction_entry self filename (index + i) row).
Proof.
  revert index i. induction rows as [|r rest IH]; intros index i.
  - destruct i; discriminate.
  - rewrite transaction_loop_cons. destruct i as [|i]; simpl.
    + intros H. injection H as <-. now rewrite Nat.add_0_r.
    + intros H. rewrite (IH _ _ H). do 2 f_equal. lia.
Qed.

Lemma transaction_loop_only_transactions (self : Importer) (filename : string)
      (index : nat) (rows : list Row) :
  forallb is_transaction (transaction_loop self filename index rows []) = true.
Proof.
  revert index. induction rows as [|r rest IH]; intros index; [reflexivity|].
  rewrite transaction_loop_cons. simpl. apply IH.
Qed.

Lemma filter_all {A : Type} (p : A -> bool) (l : list A) :
  forallb p l = true -> filter p l = l.
Proof.
  induction l as [|x l IH]; simpl; [reflexivity|].
  intros H. apply andb_true_iff in H. destruct H as [-> H]. now rewrite IH.
Qed.

Lemma balance_loop_app (self : Importer) (filename : string)
      (reversed_rows : list Row) (balance_date : datetime.date)
      (entries : list beancount.Directive) :
  balance_loop self filename reversed_rows balance_date entries
  = entries ++ balance_loop self filename reversed_rows balance_date [].
Proof.
  revert balance_date entries.
  induction reversed_rows as [|row rest IH]; intros balance_date entries.
  - simpl. now rewrite app_nil_r.
  - simpl. destruct (datetime.ltb (date row) balance_date); [|apply IH].
    rewrite IH, (IH _ [_]), app_assoc. reflexivity.
Qed.

Lemma balance_loop_only_balances (self : Importer) (filename : string)
      (reversed_rows : list Row) (balance_date : datetime.date) :
  forallb is_balance
          (balance_loop self filename reversed_rows balance_date []) = true.
Proof.
  revert balance_date.
  induction reversed_rows as [|row rest IH]; intros balance_date;
    [reflexivity|].
  simpl. destruct (datetime.ltb (date row) balance_date); [|apply IH].
  rewrite balance_loop_app. simpl. apply IH.
Qed.

Lemma filter_transactions_balances (txns bals : list beancount.Directive) :
  forallb is_transaction txns = true -> forallb is_balance bals = true ->
  filter is_transaction (txns ++ bals) = txns.
Proof.
  intros Ht Hb. rewrite filter_app, (filter_all _ _ Ht).
  rewrite (filter_none is_transaction bals), app_nil_r; [reflexivity|].
  intros e He. rewrite forallb_forall in Hb. specialize (Hb e He).
  destruct e; [discriminate|reflexivity].
Qed.

Lemma filter_balance_transactions (txns : list beancount.Directive) :
  forallb is_transaction txns = true -> filter is_balance txns = [].
Proof.
  intros Ht. apply filter_none. intros e He.
  rewrite forallb_forall in Ht. specialize (Ht e He).
  destruct e; [reflexivity|discriminate].
Qed.

Lemma last_item_snoc {A : Type} (l : list A) (x : A) :
  last_item (l ++ [x]) = Return x.
Proof. unfold last_item. now rewrite pop_snoc. Qed.

(** The shape of what [extract] returns, branch by branch. *)
Lemma extract_shape (self : Importer) (filename : string)
      (parsed ordered : list Row) (error_lineno : option Z) :
  sort_rows parsed = Return (ordered, error_lineno) ->
  exists balances log,
    extract self filename parsed
    = Return (transaction_loop self filename 0 ordered [] ++ balances, log)
    /\ forallb is_balance balances = true
    /\ (forall l, error_lineno = Some l ->
                  balances = [] /\ (ordered <> [] -> log = [(filename, l)])).
Proof.
  intros Hsort. unfold extract. rewrite Hsort. cbn [bind].
  destruct (exists_last_or_nil ordered) as [->|[earlier [last_row ->]]].
  - exists [], []. simpl. split; [reflexivity|]. split; [reflexivity|].
    intros l _. split; [reflexivity|]. intros Hne. now contradiction Hne.
  - assert (Hlen : (List.length (earlier ++ [last_row]) =? 0)%nat = false).
    { apply Nat.eqb_neq. rewrite length_app. simpl. lia. }
    rewrite Hlen.
    destruct error_lineno as [l|].
    + exists [], [(filename, l)]. rewrite app_nil_r.
      split; [reflexivity|]. split; [reflexivity|].
      intros l' Hl. injection Hl as <-. split; reflexivity.
    + destruct (first_day self) as [fd|]; rewrite last_item_snoc; cbn [bind].
      * rewrite balance_loop_app. eexists _, []. split; [reflexivity|].
        split; [apply balance_loop_only_balances|]. intros l H. discriminate.
      * eexists [_], []. split; [reflexivity|].
        split; [reflexivity|]. intros l H. discriminate.
Qed.

(** A candidate that succeeds gives a consistent ordering of the input. *)
Lemma succeeds_sound (rows : list Row) (ob : Q) (s : state) :
  succeeds rows ob s ->
  Permutation rows (balanced_rows s)
  /\ balance_consistent ob (balanced_rows s).
Proof.
  intros [Ha Hl]. split; [eapply attempt_complete; eauto|].
  apply agrees_consistent. eapply attempt_agrees; eauto.
Qed.

(** ** The sample statements *)

Example sort_rows_swapped :
  sort_rows Sample.swapped = Return (Sample.swapped_ordered, None).
Proof. vm_compute. reflexivity. Qed.

(** The ordering found for a date-sorted input need not be date-sorted. *)
Example sort_rows_late :
  sort_rows Sample.late = Return (Sample.late_ordered, None).
Proof. vm_compute. reflexivity. Qed.

Example sort_rows_irreconcilable_sample :
  sort_rows Sample.irreconcilable = Return (Sample.irreconcilable, Some 1%Z).
Proof. vm_compute. reflexivity. Qed.

Example extract_in_order_unanchored :
  exists entries,
    extract Sample.unanchored "statement.csv" Sample.in_order
    = Return (entries, [])
    /\ balance_directives entries = [(datetime.mkdate 2017 2 1, 120)].
Proof. eexists. split; vm_compute; reflexivity. Qed.

Example extract_irreconcilable_sample :
  exists entries,
    extract Sample.monthly "statement.csv" Sample.irreconcilable
    = Return (entries, [("statement.csv"%string, 1%Z)])
    /\ balance_directives entries = [].
Proof. eexists. split; vm_compute; reflexivity. Qed.

(** * The properties of [sort_rows] *)

(** C1 (balance consistency).  When [sort_rows] returns [(ordered, None)] on a
    non-empty list, one of the enumerated candidates, the difference
    [row.balance - row.amount] of a row that has the date of [rows[0]], is an
    opening balance for which [ordered[0]] agrees, and every later row agrees
    with the balance of the row before it; the equalities are exact. *)
Theorem sort_rows_balance_consistent (rows ordered : list Row) :
  sort_rows rows = Return (ordered, None) ->
  rows <> [] ->
  exists opening_balance,
    In opening_balance (opening_balances rows)
    /\ (exists r0 r, hd_error rows = Some r0 /\ In r rows
                     /\ date r = date r0
                     /\ opening_balance = balance r - amount r)
    /\ balance_consistent opening_balance ordered.
Proof.
  intros Hsort Hne. unfold sort_rows, sort_rows_fuel in Hsort.
  destruct (List.length rows <=? 1)%nat eqn:Hlen.
  - injection Hsort as <-. apply Nat.leb_le in Hlen.
    destruct rows as [|r [|r' rest]]; [contradiction| |simpl in Hlen; lia].
    exists (balance r - amount r). split; [|split].
    + unfold opening_balances. simpl. rewrite datetime_eqb_refl. now left.
    + exists r, r. simpl. auto.
    + apply agrees_consistent. simpl. split; [ring|exact I].
  - apply try_candidates_inv in Hsort.
    destruct Hsort as [[_ [ob [s [Hin [[Ha Hl] ->]]]]]|[_ Herr]];
      [|now contradiction Herr].
    exists ob. split; [assumption|]. split.
    + now apply opening_balances_In.
    + apply agrees_consistent. eapply attempt_agrees; eauto.
Qed.

Lemma sort_rows_balance_consistent_witness :
  sort_rows Sample.swapped = Return (Sample.swapped_ordered, None)
  /\ Sample.swapped <> []
  /\ exists opening_balance,
       In opening_balance (opening_balances Sample.swapped)
       /\ (exists r0 r, hd_error Sample.swapped = Some r0
                        /\ In r Sample.swapped /\ date r = date r0
                        /\ opening_balance = balance r - amount r)
       /\ balance_consistent opening_balance Sample.swapped_ordered.
Proof.
  split; [vm_compute; reflexivity|]. split; [discriminate|].
  apply (sort_rows_balance_consistent Sample.swapped Sample.swapped_ordered);
    [vm_compute; reflexivity|discriminate].
Defined.

(** C2 (permutation).  [sort_rows] returns, and the sequence it returns,
    with or without a failure line, is a permutation of its input: no row is
    dropped, duplicated or made up. *)
Theorem sort_rows_permutation (rows : list Row) :
  exists ordered error_lineno,
    sort_rows rows = Return (ordered, error_lineno)
    /\ Permutation rows ordered.
Proof.
  destruct (sort_rows_returns rows) as [ordered [err Hsort]].
  exists ordered, err. split; [assumption|].
  eapply sort_rows_Permutation; eauto.
Qed.

(** C3 (total failure).  On two or more rows for which no candidate yields a
    complete ordering, [sort_rows] returns its input unchanged together with
    the line number of the first row left deferred by the attempt from the
    last candidate. *)
Theorem sort_rows_irreconcilable (rows : list Row) :
  (2 <= List.length rows)%nat ->
  (forall ob s, In ob (opening_balances rows) -> ~ succeeds rows ob s) ->
  exists earlier last_candidate s u rest,
    opening_balances rows = earlier ++ [last_candidate]
    /\ fails rows last_candidate s
    /\ unbalanced_rows s = u :: rest
    /\ sort_rows rows = Return (rows, Some (lineno u)).
Proof.
  intros Hlen Hall. unfold sort_rows, sort_rows_fuel.
  assert (Hleb : (List.length rows <=? 1)%nat = false)
    by (apply Nat.leb_gt; lia).
  rewrite Hleb.
  destruct rows as [|r0 rest0]; [simpl in Hlen; lia|].
  destruct (opening_balances_first r0 rest0) as [others Hob].
  destruct (@exists_last _ (opening_balances (r0 :: rest0))) as [pre [ob Hpre]].
  { rewrite Hob. discriminate. }
  rewrite Hpre in Hall |- *.
  destruct (try_candidates_all_fail (r0 :: rest0) pre ob 0%Z Hall)
    as [s [u [rest [Hf [Hu Ht]]]]].
  exists pre, ob, s, u, rest. auto.
Qed.

Lemma sort_rows_irreconcilable_witness :
  (2 <= List.length Sample.irreconcilable)%nat
  /\ (forall ob s, In ob (opening_balances Sample.irreconcilable) ->
                   ~ succeeds Sample.irreconcilable ob s)
  /\ exists earlier last_candidate s u rest,
       opening_balances Sample.irreconcilable = earlier ++ [last_candidate]
       /\ fails Sample.irreconcilable last_candidate s
       /\ unbalanced_rows s = u :: rest
       /\ sort_rows Sample.irreconcilable
          = Return (Sample.irreconcilable, Some (lineno u)).
Proof.
  assert (Hall : forall ob s, In ob (opening_balances Sample.irreconcilable) ->
                              ~ succeeds Sample.irreconcilable ob s).
  { intros ob s Hin [Ha Hl]. vm_compute in Hin.
    destruct Hin as [<-|[<-|[]]]; vm_compute in Ha; injection Ha as <-;
      vm_compute in Hl; discriminate. }
  split; [simpl; lia|]. split; [exact Hall|].
  apply (sort_rows_irreconcilable Sample.irreconcilable); [simpl; lia|exact Hall].
Defined.

(** C6 (candidates and tie-break).  On a date-sorted list of two or more
    rows, the candidates that the [for] loop ranges over are the differences
    [row.balance - row.amount] of the rows that share the earliest date, in
    input order; and the result is the ordering of the first candidate, in
    that order, whose attempt accepts every row. *)
Theorem sort_rows_first_candidate (rows : list Row) :
  date_sorted rows ->
  (2 <= List.length rows)%nat ->
  opening_balances rows
  = map (fun row => balance row - amount row) (rows_of_earliest_date rows)
  /\ forall earlier ob later s,
       opening_balances rows = earlier ++ ob :: later ->
       (forall ob' s', In ob' earlier -> ~ succeeds rows ob' s') ->
       succeeds rows ob s ->
       sort_rows rows = Return (balanced_rows s, None).
Proof.
  intros Hsorted Hlen. split; [now apply opening_balances_sorted|].
  intros earlier ob later s Hob Hearlier Hs.
  unfold sort_rows, sort_rows_fuel.
  assert (Hleb : (List.length rows <=? 1)%nat = false)
    by (apply Nat.leb_gt; lia).
  rewrite Hleb, Hob. now apply try_candidates_first_success.
Qed.

Lemma sort_rows_first_candidate_witness :
  date_sorted Sample.swapped
  /\ (2 <= List.length Sample.swapped)%nat
  /\ opening_balances Sample.swapped
     = map (fun row => balance row - amount row)
           (rows_of_earliest_date Sample.swapped)
  /\ sort_rows Sample.swapped = Return (Sample.swapped_ordered, None).
Proof.
  assert (Hsorted : date_sorted Sample.swapped).
  { repeat constructor. }
  assert (Hlen : (2 <= List.length Sample.swapped)%nat) by (simpl; lia).
  destruct (sort_rows_first_candidate Sample.swapped Hsorted Hlen) as [Hc Hw].
  split; [exact Hsorted|]. split; [exact Hlen|]. split; [exact Hc|].
  apply (Hw [15 - 5] (10 - 10) []
            (mkstate [] 35 [] Sample.swapped_ordered)).
  - vm_compute. reflexivity.
  - intros ob' s' [<-|[]] [Ha Hl]. vm_compute in Ha. injection Ha as <-.
    vm_compute in Hl. discriminate.
  - split; vm_compute; reflexivity.
Defined.

(** C8 (idempotence).  A sequence that is already in an order agreeing with
    its balances, from the opening balance [rows[0].balance - rows[0].amount],
    is returned as it is, with no failure line; so are the empty sequence and
    the sequences of one row. *)
Theorem sort_rows_idempotent (rows : list Row) :
  correctly_ordered rows -> sort_rows rows = Return (rows, None).
Proof.
  destruct rows as [|r0 [|r1 rest]]; [reflexivity|reflexivity|].
  intros Hord. unfold correctly_ordered in Hord.
  apply agrees_consistent in Hord.
  destruct (opening_balances_first r0 (r1 :: rest)) as [others Hob].
  remember (r0 :: r1 :: rest) as rows eqn:Hrows.
  assert (Hleb : (List.length rows <=? 1)%nat = false)
    by (rewrite Hrows; reflexivity).
  unfold sort_rows, sort_rows_fuel. rewrite Hleb, Hob.
  rewrite (try_candidates_success_step _ rows _ others 0%Z
             (mkstate [] (last (map balance rows) (balance r0 - amount r0)) []
                      ([] ++ rows)) (le_n _)); [reflexivity|].
  split; [|reflexivity].
  unfold attempt, initial_state. apply while_stack_in_order; [assumption|].
  unfold enough_fuel. lia.
Qed.

Lemma sort_rows_idempotent_witness :
  correctly_ordered Sample.in_order
  /\ sort_rows Sample.in_order = Return (Sample.in_order, None).
Proof.
  assert (H : correctly_ordered Sample.in_order).
  { apply agrees_consistent. simpl. repeat split; reflexivity. }
  split; [exact H|]. apply (sort_rows_idempotent Sample.in_order H).
Defined.

(** C9 (totality).  The placement loop terminates from every state, although
    accepting a row may push deferred rows back on the stack; and [sort_rows]
    returns a pair for every list of rows, reconcilable or not: no exception
    is raised and the fuel [enough_fuel rows], or more, is never used up. *)
Theorem sort_rows_total (rows : list Row) :
  (forall s, exists s_end, forall fuel, (measure s < fuel)%nat ->
       while_stack fuel s = Some s_end)
  /\ (exists ordered error_lineno,
        sort_rows rows = Return (ordered, error_lineno)
        /\ forall fuel, (enough_fuel rows <= fuel)%nat ->
             sort_rows_fuel fuel rows = Return (ordered, error_lineno)).
Proof.
  split.
  - intros s. destruct (while_stack_total (S (measure s)) s (le_n _))
      as [s_end Hend].
    exists s_end. intros fuel Hf. eapply while_stack_more_fuel; eauto.
  - destruct (sort_rows_fuel_returns rows) as [[ordered err] H].
    exists ordered, err. split; [apply H, le_n|exact H].
Qed.

(** C10 (deferred rows).  In every state of a candidate attempt, at the head
    of the loop and where the loop is left, the deferred rows all have the
    date of the first of them, so the test on the first deferred row is the
    test on every deferred row; and an attempt that ends without having
    accepted every row leaves a first deferred row to read the line number
    from. *)
Theorem deferred_rows_one_date (rows : list Row) (opening_balance : Q) :
  (forall s,
     at_loop_head (initial_state rows opening_balance) s
     \/ at_loop_exit (initial_state rows opening_balance) s ->
     date_homogeneous (unbalanced_rows s)
     /\ forall row,
          other_date_deferred (unbalanced_rows s) row
          = some_other_date_deferred (unbalanced_rows s) row)
  /\ (forall fuel s,
        attempt fuel rows opening_balance = Some s ->
        List.length (balanced_rows s) <> List.length rows ->
        exists u rest, unbalanced_rows s = u :: rest).
Proof.
  split.
  - intros s Hs.
    assert (Hh : date_homogeneous (unbalanced_rows s)).
    { destruct Hs as [Hs|[s1 Hs Hb|s1 s2 Hs Hb]].
      - eapply at_loop_head_homogeneous; eauto.
      - eapply at_loop_head_homogeneous; eauto.
      - apply at_loop_head_homogeneous in Hs. apply loop_body_case in Hb.
        eapply body_case_homogeneous; eauto. }
    split; [assumption|]. intros row. now apply other_date_deferred_all.
  - intros fuel s Ha Hl. pose proof (attempt_incomplete _ _ _ _ Ha Hl) as Hu.
    destruct (unbalanced_rows s) as [|u rest]; [contradiction|eauto].
Qed.

Lemma deferred_rows_one_date_witness :
  let s := mkstate [] 11 [mkRow 1 Sample.day1 "coffee" 5 15]
                   [mkRow 2 Sample.day1 "salary" 10 11] in
  attempt 13 Sample.irreconcilable (11 - 10) = Some s
  /\ List.length (balanced_rows s) <> List.length Sample.irreconcilable
  /\ exists u rest, unbalanced_rows s = u :: rest.
Proof.
  intros s.
  assert (Ha : attempt 13 Sample.irreconcilable (11 - 10) = Some s)
    by (vm_compute; reflexivity).
  assert (Hl : List.length (balanced_rows s)
               <> List.length Sample.irreconcilable) by (simpl; lia).
  split; [exact Ha|]. split; [exact Hl|].
  exact (proj2 (deferred_rows_one_date Sample.irreconcilable (11 - 10))
               13%nat s Ha Hl).
Defined.

(** * The properties of [Importer.extract] *)

(** C7 (transactions, and nothing else on failure).  [extract] returns; the
    transactions among its entries are one per ordered row, in the order
    found by [sort_rows], the transaction at position [i] being built from
    the row at position [i]; and when [sort_rows] gives a failure line the
    entries are these transactions only, with no balance directive, and the
    failure line is logged. *)
Theorem extract_transactions (self : Importer) (filename : string)
        (parsed : list Row) :
  exists ordered error_lineno entries log,
    sort_rows parsed = Return (ordered, error_lineno)
    /\ extract self filename parsed = Return (entries, log)
    /\ List.length (filter is_transaction entries) = List.length ordered
    /\ (forall i row,
          nth_error ordered i = Some row ->
          nth_error (filter is_transaction entries) i
          = Some (transaction_entry self filename i row))
    /\ (forall l, error_lineno = Some l ->
          entries = filter is_transaction entries
          /\ filter is_balance entries = []
          /\ (ordered <> [] -> log = [(filename, l)])).
Proof.
  destruct (sort_rows_returns parsed) as [ordered [err Hsort]].
  destruct (extract_shape self filename parsed ordered err Hsort)
    as [balances [log [Hex [Hbal Herr]]]].
  pose proof (transaction_loop_only_transactions self filename 0 ordered) as Ht.
  exists ordered, err,
    (transaction_loop self filename 0 ordered [] ++ balances), log.
  split; [assumption|]. split; [exact Hex|].
  rewrite (filter_transactions_balances _ _ Ht Hbal).
  split; [apply transaction_loop_length|]. split.
  - intros i row Hi. now apply (transaction_loop_nth self filename 0).
  - intros l Hl. destruct (Herr l Hl) as [-> Hlog]. rewrite app_nil_r.
    split; [reflexivity|]. split; [|assumption].
    now apply filter_balance_transactions.
Qed.

(** C5 (one trailing balance).  With no anchor day, when [sort_rows] found an
    ordering of a non-empty list, [extract] returns the transactions of the
    ordered rows followed by exactly one balance directive, dated the day
    after the last ordered row and asserting the balance of that row. *)
Theorem extract_unanchored (self : Importer) (filename : string)
        (parsed ordered : list Row) :
  first_day self = None ->
  sort_rows parsed = Return (ordered, None) ->
  parsed <> [] ->
  exists earlier last_row transactions,
    ordered = earlier ++ [last_row]
    /\ forallb is_transaction transactions = true
    /\ List.length transactions = List.length ordered
    /\ extract self filename parsed
       = Return
           (transactions
              ++ [beancount.Balance
                    (beancount.new_metadata filename 0)
                    (datetime.add_one_day (date last_row))
                    (account self)
                    (beancount.mkAmount (balance last_row) (currency self))
                    None None],
            []).
Proof.
  intros Hfd Hsort Hne.
  destruct (exists_last_or_nil ordered) as [->|[earlier [last_row ->]]].
  - apply sort_rows_Permutation, Permutation_sym, Permutation_nil in Hsort.
    contradiction.
  - exists earlier, last_row,
      (transaction_loop self filename 0 (earlier ++ [last_row]) []).
    split; [reflexivity|].
    split; [apply transaction_loop_only_transactions|].
    split; [apply transaction_loop_length|].
    unfold extract. rewrite Hsort. cbn [bind].
    assert (Hlen : (List.length (earlier ++ [last_row]) =? 0)%nat = false).
    { apply Nat.eqb_neq. rewrite length_app. simpl. lia. }
    rewrite Hlen, Hfd, last_item_snoc. reflexivity.
Qed.

Lemma extract_unanchored_witness :
  first_day Sample.unanchored = None
  /\ sort_rows Sample.in_order = Return (Sample.in_order, None)
  /\ Sample.in_order <> []
  /\ exists earlier last_row transactions,
       Sample.in_order = earlier ++ [last_row]
       /\ forallb is_transaction transactions = true
       /\ List.length transactions = List.length Sample.in_order
       /\ extract Sample.unanchored "statement.csv" Sample.in_order
          = Return
              (transactions
                 ++ [beancount.Balance
                       (beancount.new_metadata "statement.csv" 0)
                       (datetime.add_one_day (date last_row))
                       (account Sample.unanchored)
                       (beancount.mkAmount (balance last_row)
                                           (currency Sample.unanchored))
                       None None],
               []).
Proof.
  assert (Hsort : sort_rows Sample.in_order = Return (Sample.in_order, None))
    by (vm_compute; reflexivity).
  split; [reflexivity|]. split; [exact Hsort|]. split; [discriminate|].
  apply (extract_unanchored Sample.unanchored "statement.csv" Sample.in_order
           Sample.in_order eq_refl Hsort).
  discriminate.
Defined.

(** C4 (periodic balances), at a statement with a month without rows.  The
    rows of [Sample.gap] are in order and are dated 2016-12-20, 2017-01-05 and
    2017-03-10.  With anchor day 1, [extract] returns three balance
    directives, dated 2017-04-01, 2017-03-01 and 2017-02-01; the one dated
    2017-02-01 asserts 100, the balance of the row of 2016-12-20, whereas the
    last row before 2017-02-01 is the row of 2017-01-05, with balance 150. *)
Theorem extract_periodic_gap :
  sort_rows Sample.gap = Return (Sample.gap, None)
  /\ exists entries,
       extract Sample.monthly "statement.csv" Sample.gap = Return (entries, [])
       /\ balance_directives entries
          = [ (datetime.mkdate 2017 4 1, 120);
              (datetime.mkdate 2017 3 1, 150);
              (datetime.mkdate 2017 2 1, 100) ]
       /\ balance_before Sample.gap (datetime.mkdate 2017 4 1) = Some 120
       /\ balance_before Sample.gap (datetime.mkdate 2017 3 1) = Some 150
       /\ balance_before Sample.gap (datetime.mkdate 2017 2 1) = Some 150.
Proof.
  split; [vm_compute; reflexivity|].
  eexists. split; [vm_compute; reflexivity|].
  repeat split; vm_compute; reflexivity.
Qed.

(** * Further properties of [sort_rows] *)

Lemma at_loop_exit_unbalanced_In (rows : list Row) (ob : Q) (s : state) :
  at_loop_exit (initial_state rows ob) s ->
  forall r, In r (unbalanced_rows s) -> In r rows.
Proof.
  assert (Hhead : forall s1, at_loop_head (initial_state rows ob) s1 ->
                    forall r, In r (unbalanced_rows s1) -> In r rows).
  { intros s1 Hh r Hr. apply at_loop_head_held in Hh.
    apply (Permutation_in r) in Hh; [assumption|].
    unfold held. apply in_or_app. right. apply in_or_app. now left. }
  intros [s1 Hh Hb|s1 s2 Hh Hb]; [now apply Hhead|].
  apply loop_body_case in Hb. inversion Hb; subst; simpl. now apply Hhead.
Qed.

Lemma try_candidates_failure (rows : list Row) (candidates : list Q) (e l : Z)
      (out : list Row) :
  try_candidates (enough_fuel rows) rows candidates e = Return (out, Some l) ->
  out = rows
  /\ (forall ob s, In ob candidates -> ~ succeeds rows ob s)
  /\ (candidates = [] /\ l = e \/ exists r, In r rows /\ lineno r = l).
Proof.
  revert e. induction candidates as [|ob candidates IH]; intros e.
  - simpl. intros H. injection H as <- <-.
    split; [reflexivity|]. split; [intros ob s []|now left].
  - destruct (attempt_succeeds_or_fails rows ob) as [s [Hs|Hs]].
    + rewrite (try_candidates_success_step _ _ _ _ _ _ (le_n _) Hs).
      discriminate.
    + destruct (try_candidates_fail_step _ rows ob candidates e s (le_n _) Hs)
        as [u [rest [Hu ->]]].
      intros H. apply IH in H. destruct H as [-> [Hall Hl]].
      split; [reflexivity|]. split.
      * intros ob' s' [<-|Hin] Hs'; [|now apply (Hall ob' s')].
        eapply succeeds_not_fails; eauto.
      * right. destruct Hl as [[_ ->]|Hl]; [|assumption].
        exists u. split; [|reflexivity].
        destruct Hs as [Ha _]. apply attempt_exit in Ha.
        apply (at_loop_exit_unbalanced_In _ _ _ Ha). rewrite Hu. now left.
Qed.

Lemma sort_rows_failure_nonempty (rows ordered : list Row) (l : Z) :
  sort_rows rows = Return (ordered, Some l) -> ordered <> [].
Proof.
  unfold sort_rows, sort_rows_fuel.
  destruct (List.length rows <=? 1)%nat eqn:Hlen; [discriminate|].
  apply Nat.leb_gt in Hlen. intros H. apply try_candidates_failure in H.
  destruct H as [-> _]. destruct rows; [simpl in Hlen; lia|discriminate].
Qed.

(** X1 (what a failure line means).  When [sort_rows] returns a failure line,
    the sequence returned is the input itself, the input has two rows or
    more, no candidate opening balance orders it, and the failure line is the
    line number of a row of the input. *)
Theorem sort_rows_failure_line (rows ordered : list Row) (l : Z) :
  sort_rows rows = Return (ordered, Some l) ->
  ordered = rows
  /\ (2 <= List.length rows)%nat
  /\ (forall ob s, In ob (opening_balances rows) -> ~ succeeds rows ob s)
  /\ exists r, In r rows /\ lineno r = l.
Proof.
  unfold sort_rows, sort_rows_fuel.
  destruct (List.length rows <=? 1)%nat eqn:Hlen; [discriminate|].
  apply Nat.leb_gt in Hlen. intros H. apply try_candidates_failure in H.
  destruct H as [-> [Hall Hl]]. split; [reflexivity|]. split; [lia|].
  split; [assumption|].
  destruct Hl as [[Hnil _]|Hl]; [|assumption].
  destruct rows as [|r0 rest]; [simpl in Hlen; lia|].
  destruct (opening_balances_first r0 rest) as [others Hob].
  rewrite Hob in Hnil. discriminate.
Qed.

Lemma sort_rows_failure_line_witness :
  sort_rows Sample.irreconcilable = Return (Sample.irreconcilable, Some 1%Z)
  /\ exists r, In r Sample.irreconcilable /\ lineno r = 1%Z.
Proof.
  assert (H : sort_rows Sample.irreconcilable
              = Return (Sample.irreconcilable, Some 1%Z))
    by (vm_compute; reflexivity).
  split; [exact H|].
  apply (sort_rows_failure_line Sample.irreconcilable Sample.irreconcilable
                                1%Z H).
Defined.

Lemma sort_rows_agrees (rows ordered : list Row) :
  sort_rows rows = Return (ordered, None) ->
  match ordered with
  | [] => True
  | r0 :: _ => agrees (balance r0 - amount r0) ordered
  end.
Proof.
  intros Hsort. destruct ordered as [|r0 rest]; [exact I|].
  assert (Hob : exists ob, agrees ob (r0 :: rest)).
  { unfold sort_rows, sort_rows_fuel in Hsort.
    destruct (List.length rows <=? 1)%nat eqn:Hlen.
    - injection Hsort as ->. apply Nat.leb_le in Hlen.
      destruct rest; [|simpl in Hlen; lia].
      exists (balance r0 - amount r0). simpl. split; [ring|exact I].
    - apply try_candidates_inv in Hsort.
      destruct Hsort as [[_ [ob [s [_ [[Ha _] Hout]]]]]|[_ Herr]];
        [|now contradiction Herr].
      exists ob. rewrite Hout. eapply attempt_agrees; eauto. }
  destruct Hob as [ob [_ Hrest]]. split; [ring|exact Hrest].
Qed.

Lemma sort_rows_in_order (rows : list Row) :
  match rows with
  | [] => True
  | r0 :: _ => agrees (balance r0 - amount r0) rows
  end ->
  sort_rows rows = Return (rows, None).
Proof.
  destruct rows as [|r0 [|r1 rest]]; [reflexivity|reflexivity|].
  intros Hord.
  destruct (opening_balances_first r0 (r1 :: rest)) as [others Hob].
  remember (r0 :: r1 :: rest) as rows eqn:Hrows.
  assert (Hleb : (List.length rows <=? 1)%nat = false)
    by (rewrite Hrows; reflexivity).
  unfold sort_rows, sort_rows_fuel. rewrite Hleb, Hob.
  rewrite (try_candidates_success_step _ rows _ others 0%Z
             (mkstate [] (last (map balance rows) (balance r0 - amount r0)) []
                      ([] ++ rows)) (le_n _)); [reflexivity|].
  split; [|reflexivity].
  unfold attempt, initial_state. apply while_stack_in_order; [assumption|].
  unfold enough_fuel. lia.
Qed.

(** X2 (a found ordering is a fixed point).  Running [sort_rows] again on an
    ordering that it found returns that ordering, with no failure line. *)
Theorem sort_rows_twice (rows ordered : list Row) :
  sort_rows rows = Return (ordered, None) ->
  sort_rows ordered = Return (ordered, None).
Proof.
  intros H. apply sort_rows_in_order. eapply sort_rows_agrees; eauto.
Qed.

Lemma sort_rows_twice_witness :
  sort_rows Sample.swapped = Return (Sample.swapped_ordered, None)
  /\ sort_rows Sample.swapped_ordered = Return (Sample.swapped_ordered, None).
Proof.
  assert (H : sort_rows Sample.swapped = Return (Sample.swapped_ordered, None))
    by (vm_compute; reflexivity).
  split; [exact H|]. apply (sort_rows_twice Sample.swapped _ H).
Defined.

Lemma takewhile_split {A : Type} (p : A -> bool) (l1 l2 : list A) (x y : A) :
  In x (takewhile p (l1 ++ y :: l2)) -> ~ In x l1 -> p y = true.
Proof.
  induction l1 as [|a l1 IH]; simpl.
  - destruct (p y); [reflexivity|intros []].
  - destruct (p a); [|intros []].
    intros [->|Hin] Hnot; [exfalso; apply Hnot; now left|].
    apply IH; [assumption|]. intros Hx. apply Hnot. now right.
Qed.

Lemma body_case_first_acceptance (rows : list Row) (ob : Q) (rk : Row)
      (first_date : datetime.date) (s s' : state) :
  In rk (takewhile (fun r => datetime.eqb (date r) first_date) rows) ->
  Qeq_bool (ob + amount rk) (balance rk) = true ->
  first_acceptance rows ob first_date s ->
  body_case s Continue s' ->
  first_acceptance rows ob first_date s'.
Proof.
  intros Hrk Hbal Hinv Hc.
  assert (Hfirst : forall row st,
            stack s = st ++ [row] ->
            balanced_rows s = [] ->
            rows = unbalanced_rows s ++ rev (stack s) ->
            Forall (fun r => Qeq_bool (ob + amount r) (balance r) = false)
                   (unbalanced_rows s) ->
            date row = first_date).
  { intros row st Hst _ Hrows Hall. rewrite Hst, rev_app_distr in Hrows.
    simpl in Hrows. rewrite Hrows in Hrk.
    apply datetime_eqb_eq.
    apply (takewhile_split
             (fun r => datetime.eqb (date r) first_date) _ _ rk row Hrk).
    intros Hin. rewrite Forall_forall in Hall. rewrite (Hall rk Hin) in Hbal.
    discriminate. }
  inversion Hc as [row st Hst Hq Hu|row st Hst Hq Hu|row st Hst Hq Ho|];
    subst; unfold first_acceptance; simpl.
  - right. destruct Hinv as [[Hb [Hp [Hrows Hall]]]|[r [l [Hb Hd]]]].
    + rewrite Hb. exists row, []. split; [reflexivity|]. eapply Hfirst; eauto.
    + rewrite Hb. exists r, (l ++ [row]). split; [reflexivity|assumption].
  - right. destruct Hinv as [[Hb [Hp [Hrows Hall]]]|[r [l [Hb Hd]]]].
    + rewrite Hb. exists row, []. split; [reflexivity|]. eapply Hfirst; eauto.
    + rewrite Hb. exists r, (l ++ [row]). split; [reflexivity|assumption].
  - destruct Hinv as [[Hb [Hp [Hrows Hall]]]|Hinv]; [left|now right].
    split; [assumption|]. split; [assumption|]. split.
    + rewrite Hrows, Hst, rev_app_distr, <- app_assoc. reflexivity.
    + apply Forall_app. split; [assumption|]. constructor; [|constructor].
      rewrite <- Hp. exact Hq.
Qed.

Lemma attempt_first_acceptance (fuel : nat) (rows : list Row) (ob : Q)
      (rk : Row) (first_date : datetime.date) (s : state) :
  In rk (takewhile (fun r => datetime.eqb (date r) first_date) rows) ->
  Qeq_bool (ob + amount rk) (balance rk) = true ->
  attempt fuel rows ob = Some s ->
  balanced_rows s = []
  \/ (exists r l, balanced_rows s = r :: l /\ date r = first_date).
Proof.
  intros Hrk Hbal Ha. apply attempt_exit in Ha.
  assert (Hhead : forall s1, at_loop_head (initial_state rows ob) s1 ->
                             first_acceptance rows ob first_date s1).
  { apply (at_loop_head_ind_inv (first_acceptance rows ob first_date)).
    - left. simpl. rewrite rev_involutive. repeat split. constructor.
    - intros s1 s2. now apply body_case_first_acceptance with (rk := rk). }
  assert (Hweak : forall s1, first_acceptance rows ob first_date s1 ->
            balanced_rows s1 = []
            \/ (exists r l, balanced_rows s1 = r :: l /\ date r = first_date)).
  { intros s1 [[Hb _]|Hb]; [now left|now right]. }
  destruct Ha as [s1 Hh Hb|s1 s2 Hh Hb]; [now apply Hweak, Hhead|].
  apply Hhead, Hweak in Hh. apply loop_body_case in Hb.
  inversion Hb; subst. exact Hh.
Qed.

(** X3 (the first date stays first).  In an ordering found by [sort_rows] the
    first row has the date of the first row of the input: whichever candidate
    succeeds, the first row accepted belongs to the first date group. *)
Theorem sort_rows_first_date (rows ordered : list Row) (r0 o0 : Row) :
  sort_rows rows = Return (ordered, None) ->
  hd_error rows = Some r0 ->
  hd_error ordered = Some o0 ->
  date o0 = date r0.
Proof.
  intros Hsort Hr0 Ho0. unfold sort_rows, sort_rows_fuel in Hsort.
  destruct (List.length rows <=? 1)%nat eqn:Hlen.
  - injection Hsort as <-. rewrite Hr0 in Ho0. now injection Ho0 as <-.
  - apply try_candidates_inv in Hsort.
    destruct Hsort as [[_ [ob [s [Hin [[Ha Hl] ->]]]]]|[_ Herr]];
      [|now contradiction Herr].
    destruct rows as [|r rest]; [discriminate|]. injection Hr0 as ->.
    unfold opening_balances in Hin. apply in_map_iff in Hin.
    destruct Hin as [rk [<- Hrk]].
    assert (Hbal : Qeq_bool (balance rk - amount rk + amount rk) (balance rk)
                   = true) by (apply Qeq_bool_iff; ring).
    destruct (attempt_first_acceptance _ _ _ rk (date r0) s Hrk Hbal Ha)
      as [Hb|[r [l [Hb Hd]]]].
    + rewrite Hb in Hl. discriminate.
    + rewrite Hb in Ho0. now injection Ho0 as <-.
Qed.

Lemma sort_rows_first_date_witness :
  sort_rows Sample.swapped = Return (Sample.swapped_ordered, None)
  /\ date (mkRow 2 Sample.day1 "salary" 10 10)
     = date (mkRow 1 Sample.day1 "coffee" 5 15).
Proof.
  assert (H : sort_rows Sample.swapped = Return (Sample.swapped_ordered, None))
    by (vm_compute; reflexivity).
  split; [exact H|].
  apply (sort_rows_first_date Sample.swapped Sample.swapped_ordered _ _ H);
    reflexivity.
Defined.

(** * Further properties of [Importer.extract] *)

Lemma balance_directives_app (l1 l2 : list beancount.Directive) :
  balance_directives (l1 ++ l2) = balance_directives l1 ++ balance_directives l2.
Proof.
  induction l1 as [|e l1 IH]; [reflexivity|].
  destruct e; simpl; now rewrite IH.
Qed.

Lemma balance_directives_transactions (txns : list beancount.Directive) :
  forallb is_transaction txns = true -> balance_directives txns = [].
Proof.
  induction txns as [|e l IH]; [reflexivity|]. simpl.
  destruct e; simpl; [exact IH|discriminate].
Qed.

Lemma balance_loop_cons_taken (self : Importer) (filename : string) (row : Row)
      (rest : list Row) (balance_date : datetime.date) :
  datetime.ltb (date row) balance_date = true ->
  balance_loop self filename (row :: rest) balance_date []
  = create_balance_entry self filename balance_date (balance row)
      :: balance_loop self filename rest (periods.prev balance_date) [].
Proof. intros H. simpl. rewrite H. now rewrite balance_loop_app. Qed.

(** Every entry added by the periodic loop comes from
    [create_balance_entry]. *)
Lemma balance_loop_created (self : Importer) (filename : string)
      (reversed_rows : list Row) (balance_date : datetime.date) :
  Forall (fun e => exists on v, e = create_balance_entry self filename on v)
         (balance_loop self filename reversed_rows balance_date []).
Proof.
  revert balance_date.
  induction reversed_rows as [|row rest IH]; intros balance_date;
    [constructor|].
  destruct (datetime.ltb (date row) balance_date) eqn:E.
  - rewrite balance_loop_cons_taken by assumption. constructor; eauto.
  - simpl. rewrite E. apply IH.
Qed.

(** The directives of the periodic loop, one by one. *)
Lemma balance_loop_steps (self : Importer) (filename : string)
      (reversed_rows : list Row) (balance_date : datetime.date) :
  let directives :=
    balance_directives
      (balance_loop self filename reversed_rows balance_date []) in
  (List.length directives <= List.length reversed_rows)%nat
  /\ forall k on v,
       nth_error directives k = Some (on, v) ->
       on = boundary_back k balance_date
       /\ exists r, In r reversed_rows /\ balance r = v
                    /\ datetime.ltb (date r) on = true.
Proof.
  revert balance_date.
  induction reversed_rows as [|row rest IH]; intros balance_date; cbv zeta.
  - simpl. split; [lia|]. intros [|k] on v H; discriminate.
  - destruct (datetime.ltb (date row) balance_date) eqn:E.
    + rewrite balance_loop_cons_taken by assumption.
      destruct (IH (periods.prev balance_date)) as [Hlen Hnth].
      cbn [balance_directives create_balance_entry beancount.number].
      split; [simpl; lia|].
      intros [|k] on v H.
      * injection H as <- <-. split; [reflexivity|].
        exists row. split; [now left|]. split; [reflexivity|assumption].
      * simpl in H. destruct (Hnth k on v H) as [Hon [r [Hr [Hv Hlt]]]].
        split.
        -- rewrite Hon. unfold boundary_back. simpl.
           now rewrite Nat.iter_swap.
        -- exists r. split; [now right|]. split; assumption.
    + simpl. rewrite E. destruct (IH balance_date) as [Hlen Hnth].
      split; [simpl; lia|].
      intros k on v H. destruct (Hnth k on v H) as [Hon [r [Hr [Hv Hlt]]]].
      split; [assumption|]. exists r. split; [now right|]. split; assumption.
Qed.

(** What [extract] returns, branch by branch. *)
Lemma extract_branches (self : Importer) (filename : string)
      (parsed ordered : list Row) (error_lineno : option Z) :
  sort_rows parsed = Return (ordered, error_lineno) ->
  exists balances log,
    extract self filename parsed
    = Return (transaction_loop self filename 0 ordered [] ++ balances, log)
    /\ ((ordered = [] /\ balances = [] /\ log = [])
        \/ (exists l, ordered <> [] /\ error_lineno = Some l
                      /\ balances = [] /\ log = [(filename, l)])
        \/ (exists earlier last_row,
              ordered = earlier ++ [last_row] /\ error_lineno = None
              /\ first_day self = None /\ log = []
              /\ balances
                 = [create_balance_entry self filename
                      (datetime.add_one_day (date last_row))
                      (balance last_row)])
        \/ (exists earlier last_row anchor,
              ordered = earlier ++ [last_row] /\ error_lineno = None
              /\ first_day self = Some anchor /\ log = []
              /\ balances
                 = balance_loop self filename (rev ordered)
                     (periods.next
                        (periods.greatest_start (date last_row) anchor))
                     [])).
Proof.
  intros Hsort. unfold extract. rewrite Hsort. cbn [bind].
  destruct (exists_last_or_nil ordered) as [->|[earlier [last_row ->]]].
  - exists [], []. simpl. split; [reflexivity|]. left. auto.
  - assert (Hne : earlier ++ [last_row] <> [])
      by (intros H; apply app_eq_nil in H; destruct H; discriminate).
    assert (Hlen : (List.length (earlier ++ [last_row]) =? 0)%nat = false).
    { apply Nat.eqb_neq. rewrite length_app. simpl. lia. }
    rewrite Hlen.
    destruct error_lineno as [l|].
    + exists [], [(filename, l)]. rewrite app_nil_r.
      split; [reflexivity|]. right. left. exists l. auto.
    + destruct (first_day self) as [fd|] eqn:Hfd; rewrite last_item_snoc;
        cbn [bind].
      * rewrite balance_loop_app. eexists _, []. split; [reflexivity|].
        right. right. right. exists earlier, last_row, fd. auto.
      * eexists [_], []. split; [reflexivity|].
        right. right. left. exists earlier, last_row. auto.
Qed.

(** X4 (no rows, no entries).  [extract] returns no entry exactly when the
    parsed list is empty, and then it logs nothing; any row gives at least its
    transaction. *)
Theorem extract_empty_iff (self : Importer) (filename : string)
        (parsed : list Row) :
  exists entries log,
    extract self filename parsed = Return (entries, log)
    /\ (entries = [] <-> parsed = [])
    /\ (parsed = [] -> log = []).
Proof.
  destruct (sort_rows_returns parsed) as [ordered [err Hsort]].
  destruct (extract_branches self filename parsed ordered err Hsort)
    as [balances [log [Hex Hcases]]].
  pose proof (sort_rows_Permutation _ _ _ Hsort) as Hperm.
  exists (transaction_loop self filename 0 ordered [] ++ balances), log.
  split; [exact Hex|]. split; [split|].
  - intros Hnil. apply app_eq_nil in Hnil. destruct Hnil as [Hnil _].
    apply (f_equal (@List.length _)) in Hnil.
    rewrite transaction_loop_length in Hnil. simpl in Hnil.
    apply Permutation_length in Hperm. rewrite Hnil in Hperm.
    destruct parsed; [reflexivity|discriminate].
  - intros ->. apply Permutation_nil in Hperm. subst ordered.
    destruct Hcases as [[_ [-> _]]|[[l [Hne _]]|[[e [r [He _]]]|[e [r [a [He _]]]]]]];
      [reflexivity|now contradiction Hne| |];
      apply (f_equal (@List.length _)) in He; rewrite length_app in He;
      simpl in He; lia.
  - intros ->. apply Permutation_nil in Hperm. subst ordered.
    destruct Hcases as [[_ [_ ->]]|[[l [Hne _]]|[[e [r [He _]]]|[e [r [a [He _]]]]]]];
      [reflexivity|now contradiction Hne| |];
      apply (f_equal (@List.length _)) in He; rewrite length_app in He;
      simpl in He; lia.
Qed.

(** X5 (the periodic directives step back one period at a time).  With an
    anchor day, when [sort_rows] found an ordering, the balance directives
    come after the transactions; the directive at position [k] is dated [k]
    steps of [periods.prev] before
    [periods.next(periods.greatest_start(rows[-1].date))] and asserts the
    balance of a row dated strictly before the directive; and there are no
    more directives than rows. *)
Theorem extract_periodic_steps (self : Importer) (filename : string)
        (parsed earlier : list Row) (last_row : Row) (anchor : Z) :
  first_day self = Some anchor ->
  sort_rows parsed = Return (earlier ++ [last_row], None) ->
  exists balances,
    extract self filename parsed
    = Return (transaction_loop self filename 0 (earlier ++ [last_row]) []
                ++ balances, [])
    /\ forallb is_balance balances = true
    /\ (List.length balances <= List.length parsed)%nat
    /\ forall k on v,
         nth_error (balance_directives balances) k = Some (on, v) ->
         on = boundary_back k
                (periods.next (periods.greatest_start (date last_row) anchor))
         /\ exists r, In r parsed /\ balance r = v
                      /\ datetime.ltb (date r) on = true.
Proof.
  intros Hfd Hsort.
  pose proof (sort_rows_Permutation _ _ _ Hsort) as Hperm.
  unfold extract. rewrite Hsort. cbn [bind].
  assert (Hlen : (List.length (earlier ++ [last_row]) =? 0)%nat = false).
  { apply Nat.eqb_neq. rewrite length_app. simpl. lia. }
  rewrite Hlen, Hfd, last_item_snoc. cbn [bind].
  rewrite balance_loop_app.
  set (B0 := periods.next (periods.greatest_start (date last_row) anchor)).
  set (balances := balance_loop self filename (rev (earlier ++ [last_row]))
                                B0 []).
  exists balances. split; [reflexivity|].
  pose proof (balance_loop_only_balances self filename
                (rev (earlier ++ [last_row])) B0) as Hbal.
  fold balances in Hbal. split; [exact Hbal|].
  destruct (balance_loop_steps self filename (rev (earlier ++ [last_row])) B0)
    as [Hle Hnth]. fold balances in Hle, Hnth.
  assert (Hcount : List.length (balance_directives balances)
                   = List.length balances).
  { clear - Hbal. induction balances as [|e l IH]; [reflexivity|].
    simpl in Hbal. apply andb_true_iff in Hbal. destruct Hbal as [He Hl].
    destruct e; [discriminate|]. simpl. now rewrite IH. }
  split.
  - rewrite <- Hcount. rewrite length_rev in Hle.
    rewrite (Permutation_length Hperm). exact Hle.
  - intros k on v H. destruct (Hnth k on v H) as [Hon [r [Hr [Hv Hlt]]]].
    split; [assumption|]. exists r. split; [|split; assumption].
    apply (Permutation_in r (Permutation_sym Hperm)).
    now apply in_rev.
Qed.

Lemma extract_periodic_steps_witness :
  first_day Sample.monthly = Some 1%Z
  /\ sort_rows Sample.gap
     = Return ([ mkRow 1 (datetime.mkdate 2016 12 20) "salary" 100 100;
                 mkRow 2 (datetime.mkdate 2017 1 5) "refund" 50 150 ]
                 ++ [mkRow 3 (datetime.mkdate 2017 3 10) "coffee" (-30) 120],
               None)
  /\ exists balances,
       extract Sample.monthly "statement.csv" Sample.gap
       = Return (transaction_loop Sample.monthly "statement.csv" 0
                   ([ mkRow 1 (datetime.mkdate 2016 12 20) "salary" 100 100;
                      mkRow 2 (datetime.mkdate 2017 1 5) "refund" 50 150 ]
                      ++ [mkRow 3 (datetime.mkdate 2017 3 10) "coffee"
                                (-30) 120]) []
                   ++ balances, [])
       /\ (List.length balances <= List.length Sample.gap)%nat.
Proof.
  assert (Hsort : sort_rows Sample.gap
     = Return ([ mkRow 1 (datetime.mkdate 2016 12 20) "salary" 100 100;
                 mkRow 2 (datetime.mkdate 2017 1 5) "refund" 50 150 ]
                 ++ [mkRow 3 (datetime.mkdate 2017 3 10) "coffee" (-30) 120],
               None)) by (vm_compute; reflexivity).
  split; [reflexivity|]. split; [exact Hsort|].
  destruct (extract_periodic_steps Sample.monthly "statement.csv" Sample.gap
              _ _ 1%Z eq_refl Hsort) as [balances [Hex [_ [Hle _]]]].
  exists balances. split; [exact Hex|exact Hle].
Defined.

(** X6 (one account, one currency).  Every entry returned by [extract], a
    transaction or a balance directive, names the account of the importer
    and carries its currency, and nothing else. *)
Theorem extract_account_currency (self : Importer) (filename : string)
        (parsed : list Row) :
  exists entries log,
    extract self filename parsed = Return (entries, log)
    /\ forall e, In e entries ->
         entry_accounts e = [account self]
         /\ entry_currencies e = [currency self].
Proof.
  destruct (sort_rows_returns parsed) as [ordered [err Hsort]].
  destruct (extract_branches self filename parsed ordered err Hsort)
    as [balances [log [Hex Hcases]]].
  exists (transaction_loop self filename 0 ordered [] ++ balances), log.
  split; [exact Hex|]. intros e He. apply in_app_or in He.
  destruct He as [He|He].
  - apply In_nth_error in He. destruct He as [i Hi].
    assert (Hlt : (i < List.length ordered)%nat).
    { rewrite <- (transaction_loop_length self filename 0).
      apply nth_error_Some. rewrite Hi. discriminate. }
    destruct (nth_error ordered i) as [row|] eqn:Hrow;
      [|apply nth_error_None in Hrow; lia].
    rewrite (transaction_loop_nth self filename 0 _ _ _ Hrow) in Hi.
    injection Hi as <-. split; reflexivity.
  - assert (Hcreated : Forall (fun e => exists on v,
                          e = create_balance_entry self filename on v)
                         balances).
    { destruct Hcases as [[_ [-> _]]|[[l [_ [_ [-> _]]]]
                         |[[e' [r [_ [_ [_ [_ ->]]]]]]
                          |[e' [r [a [_ [_ [_ [_ ->]]]]]]]]]].
      - constructor.
      - constructor.
      - constructor; [eauto|constructor].
      - apply balance_loop_created. }
    rewrite Forall_forall in Hcreated.
    destruct (Hcreated e He) as [on [v ->]]. split; reflexivity.
Qed.

(** X7 (a warning exactly on failure).  [extract] logs one warning, with the
    file name and the failure line, when [sort_rows] gives a failure line,
    and logs nothing otherwise. *)
Theorem extract_warning (self : Importer) (filename : string)
        (parsed : list Row) :
  exists ordered error_lineno entries,
    sort_rows parsed = Return (ordered, error_lineno)
    /\ extract self filename parsed
       = Return (entries,
                 match error_lineno with
                 | Some l => [(filename, l)]
                 | None => []
                 end).
Proof.
  destruct (sort_rows_returns parsed) as [ordered [err Hsort]].
  destruct (extract_branches self filename parsed ordered err Hsort)
    as [balances [log [Hex Hcases]]].
  exists ordered, err,
    (transaction_loop self filename 0 ordered [] ++ balances).
  split; [assumption|]. rewrite Hex. do 2 f_equal.
  destruct Hcases as [[Hnil [_ ->]]|[[l [_ [-> [_ ->]]]]
                     |[[e' [r [_ [-> [_ [-> _]]]]]]
                      |[e' [r [a [_ [-> [_ [-> _]]]]]]]]]];
    try reflexivity.
  subst ordered. destruct err as [l|]; [|reflexivity].
  apply sort_rows_failure_nonempty in Hsort. now contradiction Hsort.
Qed.

(** * [Importer.file_date] *)

Lemma datetime_ltb_leb (a b : datetime.date) :
  datetime.ltb a b = true -> datetime.leb a b = true.
Proof. unfold datetime.leb. intros ->. reflexivity. Qed.

Lemma datetime_ltb_false (a b : datetime.date) :
  datetime.ltb a b = false -> datetime.leb b a = true.
Proof.
  intros H. apply datetime_leb_iff.
  unfold datetime.ltb in H.
  rewrite ?orb_false_iff, ?andb_false_iff, ?orb_false_iff, ?andb_false_iff,
    ?Z.ltb_ge, ?Z.eqb_neq in H.
  lia.
Qed.

(** [max_from] returns an item that is not below any other. *)
Lemma max_from_spec (best : datetime.date) (l : list datetime.date) :
  In (max_from best l) (best :: l)
  /\ forall x, In x (best :: l) -> datetime.leb x (max_from best l) = true.
Proof.
  revert best. induction l as [|y l IH]; intros best; simpl.
  - split; [now left|]. intros x [<-|[]]. apply datetime_leb_refl.
  - destruct (IH (if datetime.ltb best y then y else best)) as [Hin Hle].
    split.
    + destruct Hin as [Hin|Hin]; [|now right; right].
      rewrite <- Hin. destruct (datetime.ltb best y); [right|]; now left.
    + intros x Hx.
      assert (Hstep : datetime.leb best (if datetime.ltb best y then y else best)
                      = true
                      /\ datetime.leb y (if datetime.ltb best y then y else best)
                         = true).
      { destruct (datetime.ltb best y) eqn:E.
        - split; [now apply datetime_ltb_leb|apply datetime_leb_refl].
        - split; [apply datetime_leb_refl|now apply datetime_ltb_false]. }
      destruct Hstep as [Hb Hy].
      destruct Hx as [<-|[<-|Hx]].
      * eapply datetime_leb_trans; [exact Hb|]. apply Hle. now left.
      * eapply datetime_leb_trans; [exact Hy|]. apply Hle. now left.
      * apply Hle. now right.
Qed.

Lemma max_date_spec (l : list datetime.date) (d : datetime.date) :
  max_date l = Return d ->
  In d l /\ forall x, In x l -> datetime.leb x d = true.
Proof.
  destruct l as [|x l]; [discriminate|]. simpl. intros H. injection H as <-.
  apply max_from_spec.
Qed.

Lemma max_date_Permutation (l l' : list datetime.date) :
  Permutation l l' -> max_date l = max_date l'.
Proof.
  intros Hp. destruct l as [|x l], l' as [|x' l'].
  - reflexivity.
  - apply Permutation_nil in Hp. discriminate.
  - apply Permutation_sym, Permutation_nil in Hp. discriminate.
  - destruct (max_date_spec (x :: l) _ eq_refl) as [Hin Hle].
    destruct (max_date_spec (x' :: l') _ eq_refl) as [Hin' Hle'].
    simpl max_date. f_equal. apply datetime_leb_antisym.
    + apply Hle'. apply (Permutation_in _ Hp). exact Hin.
    + apply Hle. apply (Permutation_in _ (Permutation_sym Hp)). exact Hin'.
Qed.

(** X8 (the file date is the latest date).  Without an anchor day,
    [file_date] on a non-empty list returns the date of one of the rows, and
    no row has a later date; on an empty list [max] raises [ValueError],
    with or without an anchor day. *)
Theorem file_date_latest
        (lowest_end : datetime.date -> Z -> datetime.date) (self : Importer)
        (parsed : list Row) :
  (parsed = [] -> file_date lowest_end self parsed = Raise ValueError)
  /\ (parsed <> [] -> first_day self = None ->
      exists latest,
        file_date lowest_end self parsed = Return latest
        /\ (exists r, In r parsed /\ date r = latest)
        /\ forall r, In r parsed -> datetime.leb (date r) latest = true).
Proof.
  split.
  - intros ->. reflexivity.
  - intros Hne Hfd. unfold file_date. rewrite Hfd.
    destruct parsed as [|r0 rest]; [contradiction|].
    destruct (max_date_spec (map date (r0 :: rest)) _ eq_refl) as [Hin Hle].
    exists (max_from (date r0) (map date rest)). split; [reflexivity|]. split.
    + apply in_map_iff in Hin. destruct Hin as [r [Hr Hin]]. eauto.
    + intros r Hr. apply Hle. now apply in_map.
Qed.

Lemma file_date_latest_witness :
  Sample.in_order <> []
  /\ first_day Sample.unanchored = None
  /\ exists latest,
       file_date (fun d _ => d) Sample.unanchored Sample.in_order
       = Return latest
       /\ (exists r, In r Sample.in_order /\ date r = latest)
       /\ forall r, In r Sample.in_order ->
                    datetime.leb (date r) latest = true.
Proof.
  split; [discriminate|]. split; [reflexivity|].
  apply (proj2 (file_date_latest (fun d _ => d) Sample.unanchored
                                 Sample.in_order));
    [discriminate|reflexivity].
Defined.

(** X9 (the file date does not depend on the order of the rows).  [file_date]
    gives the same result on two lists with the same rows, whatever the
    anchor day; so it gives the same date before and after [sort_rows]. *)
Theorem file_date_order_free
        (lowest_end : datetime.date -> Z -> datetime.date) (self : Importer)
        (parsed parsed' : list Row) :
  Permutation parsed parsed' ->
  file_date lowest_end self parsed = file_date lowest_end self parsed'.
Proof.
  intros Hp. unfold file_date.
  rewrite (max_date_Permutation (map date parsed) (map date parsed'));
    [reflexivity|]. now apply Permutation_map.
Qed.

Lemma file_date_order_free_witness :
  Permutation Sample.swapped Sample.swapped_ordered
  /\ file_date (fun d _ => d) Sample.monthly Sample.swapped
     = file_date (fun d _ => d) Sample.monthly Sample.swapped_ordered.
Proof.
  assert (Hp : Permutation Sample.swapped Sample.swapped_ordered).
  { apply (sort_rows_Permutation _ _ None). vm_compute. reflexivity. }
  split; [exact Hp|].
  apply (file_date_order_free (fun d _ => d) Sample.monthly _ _ Hp).
Defined.

(** * The function [parse] of [csv.py] *)

Lemma comprehension_rows (parse_row : list string -> Z -> Row + csv.exception)
      (reader : list csv.item) (rows : list Row) :
  csv.comprehension parse_row reader = inl rows ->
  Forall2 (csv.parses_to parse_row) (csv.kept reader) rows.
Proof.
  revert rows. induction reader as [|[row n|m n] rest IH]; intros rows; simpl.
  - intros H. injection H as <-. constructor.
  - destruct (truthy row) eqn:Ht; [|apply IH].
    destruct (parse_row row n) as [parsed|exc] eqn:Hp; [|discriminate].
    destruct (csv.comprehension parse_row rest) as [rows'|f]; [|discriminate].
    intros H. injection H as <-. constructor; [exact Hp|]. now apply IH.
  - discriminate.
Qed.

Lemma comprehension_failure
      (parse_row : list string -> Z -> Row + csv.exception)
      (reader : list csv.item) (exc : csv.exception) (line_num : Z) :
  csv.comprehension parse_row reader = inr (exc, line_num) ->
  exists before i after,
    reader = before ++ i :: after
    /\ (exists rows, Forall2 (csv.parses_to parse_row) (csv.kept before) rows)
    /\ csv.raises parse_row i exc line_num.
Proof.
  induction reader as [|[row n|m n] rest IH]; simpl.
  - discriminate.
  - destruct (truthy row) eqn:Ht.
    + destruct (parse_row row n) as [parsed|exc'] eqn:Hp.
      * destruct (csv.comprehension parse_row rest) as [rows'|f];
          [discriminate|].
        intros H. injection H as ->.
        destruct (IH eq_refl) as [before [i [after [-> [[rows Hrows] Hi]]]]].
        exists (csv.fields row n :: before), i, after.
        split; [reflexivity|]. split; [|assumption].
        exists (parsed :: rows). simpl. rewrite Ht. now constructor.
      * intros H. injection H as <- <-.
        exists [], (csv.fields row n), rest. split; [reflexivity|].
        split; [exists []; constructor|]. simpl. auto.
    + intros H.
      destruct (IH H) as [before [i [after [-> [[rows Hrows] Hi]]]]].
      exists (csv.fields row n :: before), i, after.
      split; [reflexivity|]. split; [|assumption].
      exists rows. simpl. now rewrite Ht.
  - intros H. injection H as <- <-.
    exists [], (csv.malformed m n), rest. split; [reflexivity|].
    split; [exists []; constructor|]. simpl. auto.
Qed.

(** X10 (all or nothing).  When [parse] returns, it returns either one row
    for each non-empty row of the file, in file order, and logs nothing; or
    no row at all and one error, which names the line and the message of the
    first item on which the reader raised [csv.Error] or [parse_row] raised
    [csv.Error] or [ValueError].  Rows parsed before the failure are never
    returned. *)
Theorem parse_all_or_nothing (filename : string) (reader : list csv.item)
        (parse_row : list string -> Z -> Row + csv.exception)
        (rows : list Row) (log : list csv.error_record) :
  csv.parse filename reader parse_row = Return (rows, log) ->
  (log = [] /\ Forall2 (csv.parses_to parse_row) (csv.kept reader) rows)
  \/ (rows = []
      /\ exists before i after exc line_num message,
           reader = before ++ i :: after
           /\ (exists parsed,
                 Forall2 (csv.parses_to parse_row) (csv.kept before) parsed)
           /\ csv.raises parse_row i exc line_num
           /\ csv.caught exc = Some message
           /\ log = [(filename, line_num, message)]).
Proof.
  unfold csv.parse.
  destruct (csv.comprehension parse_row reader) as [rows'|[exc n]] eqn:Hc.
  - intros H. injection H as <- <-. left. split; [reflexivity|].
    now apply comprehension_rows.
  - apply comprehension_failure in Hc.
    destruct Hc as [before [i [after [Hr [Hb Hi]]]]].
    destruct exc as [m|m|c m]; [| |discriminate];
      intros H; injection H as <- <-; right; (split; [reflexivity|]);
      exists before, i, after; eexists _, n, m; repeat split; eauto.
Qed.

Lemma parse_all_or_nothing_witness :
  let reader := [csv.fields ["2017-01-01"; "10"]%string 1;
                 csv.fields [] 2;
                 csv.fields ["x"]%string 3;
                 csv.fields ["2017-01-02"; "20"]%string 4] in
  let parse_row := fun (row : list string) (n : Z) =>
    if (List.length row =? 2)%nat
    then inl (mkRow n Sample.day1 "row" 0 0)
    else inr (csv.ValueError "bad row") in
  csv.parse "statement.csv" reader parse_row
  = Return ([], [("statement.csv"%string, 3%Z, "bad row"%string)])
  /\ exists before i after,
       reader = before ++ i :: after
       /\ csv.raises parse_row i (csv.ValueError "bad row") 3.
Proof.
  intros reader parse_row.
  assert (H : csv.parse "statement.csv" reader parse_row
              = Return ([], [("statement.csv"%string, 3%Z, "bad row"%string)]))
    by reflexivity.
  split; [exact H|].
  destruct (parse_all_or_nothing "statement.csv" reader parse_row _ _ H)
    as [[Hlog _]|[_ Hfail]]; [discriminate|].
  exists [csv.fields ["2017-01-01"; "10"]%string 1; csv.fields [] 2],
    (csv.fields ["x"]%string 3),
    [csv.fields ["2017-01-02"; "20"]%string 4].
  split; [reflexivity|]. simpl. auto.
Defined.



(** * [beansoup/utils/dates.py] *)

Lemma dict_get_In (k : string) (d : dates.dict) (v : Z) :
  dates.dict_get k d = Some v -> In (k, v) d.
Proof.
  induction d as [|[k' v'] d IH]; simpl; [discriminate|].
  destruct (String.eqb k k') eqn:E.
  - intros H. injection H as <-. apply String.eqb_eq in E. subst. now left.
  - intros H. right. now apply IH.
Qed.

Ltac one_of_them :=
  repeat (first [left; reflexivity | right]).

(** X12 (what [month_number] recognises).  [month_number] gives the number
    [i] for a string exactly when [i] is in [1,12] and the string, in lower
    case, is the English name of month [i], its three letter abbreviation,
    its number or its number with two digits; the case of the letters does
    not matter. *)
Theorem month_number_spellings (s : string) (i : Z) :
  dates.month_number (dates.str s) = Some i
  <-> (1 <= i <= 12)%Z /\ In (dates.lower s) (dates.spellings i).
Proof.
  unfold dates.month_number. generalize (dates.lower s) as k. intros k.
  split.
  - intros H. apply dict_get_In in H. vm_compute in H.
    repeat (destruct H as [H|H];
            [injection H as <- <-; split; [lia|vm_compute; one_of_them]|]).
    contradiction.
  - intros [Hi Hk].
    assert (Hcases : (i = 1 \/ i = 2 \/ i = 3 \/ i = 4 \/ i = 5 \/ i = 6
                      \/ i = 7 \/ i = 8 \/ i = 9 \/ i = 10 \/ i = 11
                      \/ i = 12)%Z) by lia.
    repeat (destruct Hcases as [->|Hcases]);
      try subst i; vm_compute in Hk;
      repeat (destruct Hk as [<-|Hk]; [vm_compute; reflexivity|]);
      contradiction.
Qed.

(** ** The calendar *)

Section Calendar.

Local Open Scope Z_scope.

Lemma days_before_year_succ (y : Z) :
  datetime.days_before_year (y + 1)
  = datetime.days_before_year y + (if datetime.is_leap y then 366 else 365).
Proof.
  unfold datetime.days_before_year, datetime.is_leap. cbv zeta.
  replace (y + 1 - 1) with y by lia.
  destruct (Z.eqb_spec (y mod 4) 0), (Z.eqb_spec (y mod 100) 0),
    (Z.eqb_spec (y mod 400) 0); simpl;
    Z.to_euclidean_division_equations; lia.
Qed.

Lemma month_cases (m : Z) :
  1 <= m <= 12 ->
  m = 1 \/ m = 2 \/ m = 3 \/ m = 4 \/ m = 5 \/ m = 6 \/ m = 7 \/ m = 8
  \/ m = 9 \/ m = 10 \/ m = 11 \/ m = 12.
Proof. lia. Qed.

Lemma add_one_day_ordinal (d : datetime.date) :
  datetime.valid d ->
  datetime.toordinal (datetime.add_one_day d) = datetime.toordinal d + 1
  /\ datetime.valid (datetime.add_one_day d).
Proof.
  destruct d as [y m dd]. unfold datetime.valid, datetime.add_one_day. simpl.
  intros [Hm Hd].
  destruct (Z.ltb_spec dd (datetime.days_in_month y m)) as [Hlt|Hge].
  - unfold datetime.toordinal. simpl. lia.
  - assert (dd = datetime.days_in_month y m) as -> by lia. clear Hge Hd.
    destruct (Z.ltb_spec m 12) as [Hm12|Hm12].
    + unfold datetime.toordinal, datetime.days_before_month,
        datetime.days_in_month, datetime.DAYS_BEFORE_MONTH. simpl.
      apply month_cases in Hm.
      repeat (destruct Hm as [->|Hm];
              [destruct (datetime.is_leap y); simpl; lia|]).
      lia.
    + assert (m = 12) as -> by lia.
      unfold datetime.toordinal, datetime.days_before_month,
        datetime.days_in_month. simpl.
      rewrite days_before_year_succ.
      destruct (datetime.is_leap y), (datetime.is_leap (y + 1));
        unfold datetime.DAYS_BEFORE_MONTH; simpl; lia.
Qed.

Lemma iter_add_one_day (d : datetime.date) (k : nat) :
  datetime.valid d ->
  datetime.toordinal (Nat.iter k datetime.add_one_day d)
  = datetime.toordinal d + Z.of_nat k
  /\ datetime.valid (Nat.iter k datetime.add_one_day d).
Proof.
  intros Hd. induction k as [|k [IHo IHv]].
  - simpl. split; [lia|assumption].
  - rewrite Nat.iter_succ. destruct (add_one_day_ordinal _ IHv) as [Ho Hv].
    split; [rewrite Ho, IHo; lia|assumption].
Qed.

Lemma add_days_ordinal (d : datetime.date) (n : Z) :
  datetime.valid d -> 0 <= n ->
  datetime.toordinal (datetime.add_days d n) = datetime.toordinal d + n
  /\ datetime.valid (datetime.add_days d n).
Proof.
  intros Hd Hn. unfold datetime.add_days.
  destruct (iter_add_one_day d (Z.to_nat n) Hd) as [Ho Hv].
  split; [lia|assumption].
Qed.

Lemma add_days_add (d : datetime.date) (a b : Z) :
  0 <= a -> 0 <= b ->
  datetime.add_days (datetime.add_days d a) b = datetime.add_days d (a + b).
Proof.
  intros Ha Hb. unfold datetime.add_days.
  replace (Z.to_nat (a + b)) with (Z.to_nat b + Z.to_nat a)%nat by lia.
  now rewrite Nat.iter_add.
Qed.

Lemma weekday_bound (d : datetime.date) : 0 <= datetime.weekday d < 7.
Proof. unfold datetime.weekday. apply Z.mod_pos_bound. lia. Qed.

Lemma weekday_add_days (d : datetime.date) (n : Z) :
  datetime.valid d -> 0 <= n ->
  datetime.weekday (datetime.add_days d n) = (datetime.weekday d + n) mod 7.
Proof.
  intros Hd Hn. unfold datetime.weekday.
  destruct (add_days_ordinal d n Hd Hn) as [-> _].
  rewrite Zplus_mod_idemp_l. f_equal. lia.
Qed.

(** ** The days added by [add_biz_days] *)

Ltac leb_cases :=
  repeat match goal with
         | |- context [?a <=? ?b] => destruct (Z.leb_spec a b)
         end; lia.

Lemma days_added_eq (w n : Z) :
  0 <= w < 7 -> 0 <= n ->
  exists q r, n = 5 * q + r /\ 0 <= r < 5 /\ 0 <= q /\
   dates.days_added w n = 7 * q + r + (if 5 <=? w then 7 - w else if 5 <=? w + r then 2 else 0).
Proof.
  intros Hw Hn. exists (n / 5), (n mod 5).
  pose proof (Z.div_mod n 5 ltac:(lia)). pose proof (Z.mod_pos_bound n 5 ltac:(lia)).
  assert (0 <= n / 5) by (apply Z.div_pos; lia).
  repeat split; try lia.
  unfold dates.days_added. cbv zeta.
  destruct (Z.leb_spec 5 w); cbv beta iota.
  - destruct (Z.leb_spec 5 (0 + n mod 5)); lia.
  - destruct (Z.leb_spec 5 (w + n mod 5)); lia.
Qed.

Lemma mod7 (x w : Z) : 0 <= w < 7 -> (exists k, x = 7 * k + w) -> x mod 7 = w.
Proof. intros Hw [k ->]. rewrite Z.mul_comm, Z.add_comm, Z.mod_add by lia. apply Z.mod_small. lia. Qed.

Lemma days_added_weekday (w n : Z) :
  0 <= w < 7 -> 0 <= n ->
  0 <= dates.days_added w n /\ n <= dates.days_added w n /\ 0 <= (w + dates.days_added w n) mod 7 < 5.
Proof.
  intros Hw Hn. destruct (days_added_eq w n Hw Hn) as [q [r [-> [Hr [Hq ->]]]]].
  destruct (Z.leb_spec 5 w).
  - split; [lia|]. split; [lia|].
    rewrite (mod7 _ r); [lia|lia|]. exists (q + 1). lia.
  - destruct (Z.leb_spec 5 (w + r)).
    + split; [lia|]. split; [lia|].
      rewrite (mod7 _ (w + r - 5)); [lia|lia|]. exists (q + 1). lia.
    + split; [lia|]. split; [lia|].
      rewrite (mod7 _ (w + r)); [lia|lia|]. exists q. lia.
Qed.

Lemma days_added_unique (w n q r : Z) :
  0 <= w < 7 -> 0 <= r < 5 -> 0 <= q -> n = 5 * q + r ->
  dates.days_added w n = 7 * q + r + (if 5 <=? w then 7 - w else if 5 <=? w + r then 2 else 0).
Proof.
  intros Hw Hr Hq Hn.
  destruct (days_added_eq w n Hw ltac:(lia)) as [q' [r' [Hn' [Hr' [Hq' ->]]]]].
  assert (q' = q /\ r' = r) as [-> ->] by lia. reflexivity.
Qed.

Lemma days_added_compose (w a b : Z) :
  0 <= w < 7 -> 0 <= a -> 0 <= b ->
  dates.days_added w (a + b) = dates.days_added w a + dates.days_added ((w + dates.days_added w a) mod 7) b.
Proof.
  intros Hw Ha Hb.
  destruct (days_added_eq w a Hw Ha) as [qa [ra [Ea [Hra [Hqa Da]]]]].
  pose proof (days_added_weekday w a Hw Ha) as [_ [_ Hw']].
  set (w' := (w + dates.days_added w a) mod 7) in *.
  assert (Hw'7 : 0 <= w' < 7) by lia.
  destruct (days_added_eq w' b Hw'7 Hb) as [qb [rb [Eb [Hrb [Hqb Db]]]]].
  assert (Ew' : w' = if 5 <=? w then ra else if 5 <=? w + ra then w + ra - 5 else w + ra).
  { unfold w'. rewrite Da. destruct (Z.leb_spec 5 w); [|destruct (Z.leb_spec 5 (w + ra))].
    - apply mod7; [lia|]. exists (qa + 1). lia.
    - apply mod7; [lia|]. exists (qa + 1). lia.
    - apply mod7; [lia|]. exists qa. lia. }
  rewrite Da, Db.
  destruct (Z.leb_spec 5 (ra + rb)) as [Hc|Hc].
  - rewrite (days_added_unique w (a + b) (qa + qb + 1) (ra + rb - 5)) by lia.
    rewrite Ew'. leb_cases.
  - rewrite (days_added_unique w (a + b) (qa + qb) (ra + rb)) by lia.
    rewrite Ew'. leb_cases.
Qed.

Lemma add_biz_days_days_added (d : datetime.date) (n : Z) :
  0 <= n ->
  dates.add_biz_days d n
  = Return (datetime.add_days d (dates.days_added (datetime.weekday d) n)).
Proof.
  intros Hn. unfold dates.add_biz_days, dates.days_added.
  apply Z.leb_le in Hn. rewrite Hn. cbv zeta.
  destruct (5 <=? datetime.weekday d); reflexivity.
Qed.

(** * [add_biz_days] *)

(** X13 (the result is a business day).  A negative number of business days
    fails the assertion.  Otherwise [add_biz_days] returns a date of the
    calendar that falls on a weekday from Monday to Friday and is at least
    [num_biz_days] days after the start. *)
Theorem add_biz_days_business_day (d : datetime.date) (n : Z) :
  (n < 0 -> dates.add_biz_days d n = Raise dates.AssertionError)
  /\ (0 <= n -> datetime.valid d ->
      exists r,
        dates.add_biz_days d n = Return r
        /\ datetime.valid r
        /\ 0 <= datetime.weekday r < 5
        /\ datetime.toordinal d + n <= datetime.toordinal r).
Proof.
  split.
  - intros Hn. unfold dates.add_biz_days.
    apply Z.leb_gt in Hn. now rewrite Hn.
  - intros Hn Hd. rewrite add_biz_days_days_added by assumption.
    pose proof (weekday_bound d) as Hw.
    destruct (days_added_weekday (datetime.weekday d) n Hw Hn)
      as [H0 [Hge Hwd]].
    destruct (add_days_ordinal d _ Hd H0) as [Ho Hv].
    eexists. split; [reflexivity|]. split; [assumption|].
    rewrite weekday_add_days by assumption. split; [assumption|]. lia.
Qed.

Lemma add_biz_days_business_day_witness :
  0 <= 11
  /\ datetime.valid (datetime.mkdate 2026 11 7)
  /\ exists r,
       dates.add_biz_days (datetime.mkdate 2026 11 7) 11 = Return r
       /\ datetime.valid r
       /\ 0 <= datetime.weekday r < 5
       /\ datetime.toordinal (datetime.mkdate 2026 11 7) + 11
          <= datetime.toordinal r.
Proof.
  assert (Hv : datetime.valid (datetime.mkdate 2026 11 7))
    by (repeat split; vm_compute; discriminate).
  split; [lia|]. split; [exact Hv|].
  apply (proj2 (add_biz_days_business_day (datetime.mkdate 2026 11 7) 11));
    [lia|exact Hv].
Defined.

(** X14 (one more business day).  Asking for one more business day gives the
    next business day after the previous result: the day after it, or the
    Monday after it when it is a Friday. *)
Theorem add_biz_days_next (d : datetime.date) (n : Z) :
  datetime.valid d -> 0 <= n ->
  exists r,
    dates.add_biz_days d n = Return r
    /\ dates.add_biz_days d (n + 1) = Return (dates.next_biz_day r).
Proof.
  intros Hd Hn. rewrite !add_biz_days_days_added by lia.
  pose proof (weekday_bound d) as Hw.
  destruct (days_added_weekday (datetime.weekday d) n Hw Hn)
    as [H0 [_ Hwd]].
  eexists. split; [reflexivity|]. f_equal. unfold dates.next_biz_day.
  rewrite weekday_add_days by assumption.
  set (w' := (datetime.weekday d + dates.days_added (datetime.weekday d) n)
               mod 7) in *.
  rewrite add_days_add; [|assumption|destruct (w' =? 4); lia]. f_equal.
  rewrite days_added_compose by lia. fold w'. f_equal.
  rewrite (days_added_unique w' 1 0 1) by lia.
  destruct (Z.eqb_spec w' 4); leb_cases.
Qed.

Lemma add_biz_days_next_witness :
  datetime.valid (datetime.mkdate 2026 11 4)
  /\ 0 <= 2
  /\ exists r,
       dates.add_biz_days (datetime.mkdate 2026 11 4) 2 = Return r
       /\ dates.add_biz_days (datetime.mkdate 2026 11 4) (2 + 1)
          = Return (dates.next_biz_day r).
Proof.
  assert (Hv : datetime.valid (datetime.mkdate 2026 11 4))
    by (repeat split; vm_compute; discriminate).
  split; [exact Hv|]. split; [lia|].
  apply (add_biz_days_next (datetime.mkdate 2026 11 4) 2 Hv). lia.
Defined.

(** X15 (no business day to add).  With [num_biz_days = 0] a date from Monday
    to Friday is returned as it is, and a Saturday or a Sunday is moved to
    the Monday that follows. *)
Theorem add_biz_days_zero (d : datetime.date) :
  datetime.valid d ->
  exists r,
    dates.add_biz_days d 0 = Return r
    /\ (datetime.weekday d < 5 -> r = d)
    /\ (5 <= datetime.weekday d ->
        datetime.weekday r = 0
        /\ datetime.toordinal r
           = datetime.toordinal d + (7 - datetime.weekday d)).
Proof.
  intros Hd. rewrite add_biz_days_days_added by lia.
  pose proof (weekday_bound d) as Hw.
  rewrite (days_added_unique (datetime.weekday d) 0 0 0) by lia.
  eexists. split; [reflexivity|]. split.
  - intros Hlt. apply Z.leb_gt in Hlt. rewrite Hlt. simpl.
    replace (datetime.weekday d + 0) with (datetime.weekday d) by lia.
    rewrite Hlt. reflexivity.
  - intros Hge. pose proof Hge as Hge'. apply Z.leb_le in Hge'. rewrite Hge'.
    assert (H0 : 0 <= 7 * 0 + 0 + (7 - datetime.weekday d)) by lia.
    destruct (add_days_ordinal d _ Hd H0) as [Ho _].
    rewrite weekday_add_days by assumption. split; [|lia].
    apply mod7; [lia|]. exists 1. lia.
Qed.

Lemma add_biz_days_zero_witness :
  datetime.valid (datetime.mkdate 2026 11 7)
  /\ exists r,
       dates.add_biz_days (datetime.mkdate 2026 11 7) 0 = Return r
       /\ (datetime.weekday (datetime.mkdate 2026 11 7) < 5 ->
           r = datetime.mkdate 2026 11 7)
       /\ (5 <= datetime.weekday (datetime.mkdate 2026 11 7) ->
           datetime.weekday r = 0
           /\ datetime.toordinal r
              = datetime.toordinal (datetime.mkdate 2026 11 7)
                + (7 - datetime.weekday (datetime.mkdate 2026 11 7))).
Proof.
  assert (Hv : datetime.valid (datetime.mkdate 2026 11 7))
    by (repeat split; vm_compute; discriminate).
  split; [exact Hv|].
  apply (add_biz_days_zero (datetime.mkdate 2026 11 7) Hv).
Defined.

(** X16 (business days add up).  Adding [a] business days and then [b]
    business days to the result gives the same date as adding [a + b]
    business days at once. *)
Theorem add_biz_days_compose (d : datetime.date) (a b : Z) :
  datetime.valid d -> 0 <= a -> 0 <= b ->
  bind (dates.add_biz_days d a) (fun r => dates.add_biz_days r b)
  = dates.add_biz_days d (a + b).
Proof.
  intros Hd Ha Hb. rewrite !add_biz_days_days_added by lia. cbn [bind].
  rewrite add_biz_days_days_added by lia. f_equal.
  pose proof (weekday_bound d) as Hw.
  destruct (days_added_weekday (datetime.weekday d) a Hw Ha) as [H0 [_ Hwd]].
  rewrite weekday_add_days by assumption.
  assert (Hw' : 0 <= (datetime.weekday d
                      + dates.days_added (datetime.weekday d) a) mod 7 < 7)
    by lia.
  destruct (days_added_weekday _ b Hw' Hb) as [H0' _].
  rewrite add_days_add by assumption. f_equal.
  symmetry. now apply days_added_compose.
Qed.

Lemma add_biz_days_compose_witness :
  datetime.valid (datetime.mkdate 2026 11 7)
  /\ 0 <= 3 /\ 0 <= 4
  /\ bind (dates.add_biz_days (datetime.mkdate 2026 11 7) 3)
          (fun r => dates.add_biz_days r 4)
     = dates.add_biz_days (datetime.mkdate 2026 11 7) (3 + 4).
Proof.
  assert (Hv : datetime.valid (datetime.mkdate 2026 11 7))
    by (repeat split; vm_compute; discriminate).
  split; [exact Hv|]. split; [lia|]. split; [lia|].
  apply (add_biz_days_compose (datetime.mkdate 2026 11 7) 3 4 Hv); lia.
Defined.

End Calendar.
